(** * PetWatcher: the notification manager of [notifications.py]

    A shallow embedding of [NotificationManager] (persistence streaks,
    presence set, cooldown gate, message composition, snapshot retention
    and the platform fan-out) together with the properties its
    specification states about it, followed by [get_stats] and by the
    colour assignment and frame skipping of [PetCamera] ([camera.py]) with
    properties read off the code.

    Modelling conventions.
    - A [datetime] is the integer number of microseconds since
      [datetime.min]; a [timedelta] is a difference of two such numbers.
      [total_seconds()] is the double nearest to the quotient by 10^6
      (ties to even), and [>=] compares that double with
      [cooldown_seconds] as Python compares a [float] with a number.
    - Strings are byte strings; [str.lower] and [str.capitalize] act on the
      ASCII letters, which is what Python does on ASCII text. A statement
      that depends on more than [lower] being a function says so.
    - Everything the program obtains from outside (the wall clock, the
      library formatters, [pathlib], the import of [camera], what OpenCV
      does when it draws and writes, files removed by somebody else) is
      read from an environment record [Env].
    - Pixel data is not modelled: no property below depends on it. *)

From Stdlib Require Import ZArith Ascii String Lia.
From stdpp Require Import gmap strings list fin_maps sorting pretty.

Local Open Scope Z_scope.

(** ** Data *)

(** A finite Python [float]: the number [mantissa * 2 ^ exponent]. *)
Record pyfloat := Float { mantissa : Z; exponent : Z }.

(** A Python number, as [cooldown_seconds] may be given: an [int], a
    finite [float], an infinity or a NaN. *)
Inductive pynum :=
| PyInt (n : Z)
| PyFloat (x : pyfloat)
| PyInf (negative : bool)
| PyNaN.

(** A detection dict. The docstring of [process_detections] asks for the
    keys ['label'], ['confidence'] and ['type']; ['box'] and ['color'] are
    what the camera adds ([camera.py], [_detect]), and a dict may lack
    them. *)
Record Detection := mkDetection {
  label : string;
  confidence : pyfloat;
  box : option (list pyfloat);
  color : option (Z * Z * Z);
  kind : string
}.

(** The dict appended to [notifications] in [process_detections]. *)
Record Notification := mkNotification {
  n_subject : string;
  n_message : string;
  n_image_path : option string;
  n_detection : Detection
}.

(** A [*.jpg] entry of the image directory, with its [st_ctime]. *)
Record File := mkFile { fname : string; st_ctime : Z }.

Inductive exn :=
| FileNotFoundError (path : string)
| IndexError (msg : string)
| KeyError (key : string)
| ValueError (msg : string)
| ImportError (msg : string)
| Cv2Error (msg : string)
| NotImplementedError
| Exception (msg : string).

(** [str(e)], as the diagnostic line of [send_notification] prints it. *)
Definition str_exn (e : exn) : string :=
  match e with
  | FileNotFoundError path =>
      "[Errno 2] No such file or directory: '" +:+ path +:+ "'"
  | IndexError msg => msg
  | KeyError key => "'" +:+ key +:+ "'"
  | ValueError msg => msg
  | ImportError msg => msg
  | Cv2Error msg => msg
  | NotImplementedError => ""
  | Exception msg => msg
  end.

(** What one call of [cv2.imwrite] does. *)
Inductive WriteResult :=
| Written (ctime : Z)      (* the file now exists, stamped [ctime] *)
| NotWritten               (* returned [False], nothing on disk *)
| WriteRaises (msg : string).

(** The outside world. Calls are numbered in the order the program makes
    them. *)
Record Env := mkEnv {
  clock : nat → Z;                    (* n-th [datetime.now()] *)
  strftime : string → Z → string;     (* [datetime.strftime] *)
  format_percent : pyfloat → string;  (* [format(x, ".0%")] *)
  joinpath : string → string → string;
                                      (* [str(Path(dir) / name)] *)
  dir_entry : string → string → option string;
                                      (* the entry of directory [dir] that
                                         [Path(dir) / name] names, when
                                         that path lies directly in it *)
  frame_copy : nat → option exn;      (* what [frame.copy()] raises, if
                                         anything, by the number of clock
                                         readings made before it *)
  camera_import : option exn;         (* what [from camera import
                                         PetCamera] raises, if anything *)
  cv2_draw : list pyfloat → string → pyfloat → Z * Z * Z → option exn;
                                      (* what the OpenCV calls of
                                         [_draw_detection] raise, if
                                         anything, by its arguments *)
  imwrite : nat → string → WriteResult; (* n-th [cv2.imwrite], by path *)
  vanished : nat → list string        (* names another process removes
                                         during the n-th cleanup, after
                                         the directory was listed *)
}.

(** What awaiting one [platform.send] amounts to. *)
Record SendEffect := mkSendEffect {
  took : Z;                 (* how long the awaited call ran *)
  printed : list string;    (* lines it wrote to standard output *)
  raised : option exn       (* the exception it ended with, if any *)
}.

Record Platform := mkPlatform {
  name : string;
  send : string → option string → SendEffect
}.

(** One awaited call of [platform.send], as observed from outside. *)
Record Attempt := mkAttempt {
  a_platform : string;
  a_message : string;
  a_image : option string;
  a_started : Z;
  a_finished : Z
}.

(** The constructor arguments of [NotificationManager]. *)
Record Config := mkConfig {
  cooldown_seconds : pynum;
  persistence_frames : Z;
  save_images : bool;
  image_dir : string;
  max_images : Z;
  platforms : list Platform
}.

Definition default_config : Config :=
  mkConfig (PyInt 300) 5 true "snapshots" 100 [].

(** The mutable part: the manager's tracking fields, then the world. *)
Record State := mkState {
  last_notification : gmap string Z;
  current_state : gset string;
  detection_streak : gmap string Z;
  ticks : nat;              (* [datetime.now()] calls made so far *)
  writes : nat;             (* [cv2.imwrite] calls made so far *)
  cleanups : nat;           (* directory listings made so far *)
  snapshots : list File;    (* the [*.jpg] entries of [image_dir] *)
  stdout : list string;
  awaited : Z;              (* time spent suspended in [await] *)
  attempts : list Attempt
}.

Definition datetime_min : Z := 0.

(** [__init__], on a directory that already holds [files]. *)
Definition init (files : list File) : State :=
  mkState ∅ ∅ ∅ 0%nat 0%nat 0%nat files [] 0 [].

Definition set_last (f : gmap string Z → gmap string Z) (st : State) : State :=
  mkState (f (last_notification st)) (current_state st) (detection_streak st)
    (ticks st) (writes st) (cleanups st) (snapshots st) (stdout st)
    (awaited st) (attempts st).

Definition set_current (f : gset string → gset string) (st : State) : State :=
  mkState (last_notification st) (f (current_state st)) (detection_streak st)
    (ticks st) (writes st) (cleanups st) (snapshots st) (stdout st)
    (awaited st) (attempts st).

Definition set_streak (f : gmap string Z → gmap string Z) (st : State) : State :=
  mkState (last_notification st) (current_state st) (f (detection_streak st))
    (ticks st) (writes st) (cleanups st) (snapshots st) (stdout st)
    (awaited st) (attempts st).

Definition set_ticks (f : nat → nat) (st : State) : State :=
  mkState (last_notification st) (current_state st) (detection_streak st)
    (f (ticks st)) (writes st) (cleanups st) (snapshots st) (stdout st)
    (awaited st) (attempts st).

Definition set_writes (f : nat → nat) (st : State) : State :=
  mkState (last_notification st) (current_state st) (detection_streak st)
    (ticks st) (f (writes st)) (cleanups st) (snapshots st) (stdout st)
    (awaited st) (attempts st).

Definition set_cleanups (f : nat → nat) (st : State) : State :=
  mkState (last_notification st) (current_state st) (detection_streak st)
    (ticks st) (writes st) (f (cleanups st)) (snapshots st) (stdout st)
    (awaited st) (attempts st).

Definition set_snapshots (f : list File → list File) (st : State) : State :=
  mkState (last_notification st) (current_state st) (detection_streak st)
    (ticks st) (writes st) (cleanups st) (f (snapshots st)) (stdout st)
    (awaited st) (attempts st).

Definition set_stdout (f : list string → list string) (st : State) : State :=
  mkState (last_notification st) (current_state st) (detection_streak st)
    (ticks st) (writes st) (cleanups st) (snapshots st) (f (stdout st))
    (awaited st) (attempts st).

Definition set_awaited (f : Z → Z) (st : State) : State :=
  mkState (last_notification st) (current_state st) (detection_streak st)
    (ticks st) (writes st) (cleanups st) (snapshots st) (stdout st)
    (f (awaited st)) (attempts st).

Definition set_attempts (f : list Attempt → list Attempt) (st : State) : State :=
  mkState (last_notification st) (current_state st) (detection_streak st)
    (ticks st) (writes st) (cleanups st) (snapshots st) (stdout st)
    (awaited st) (f (attempts st)).

(** ** Computations: state, and exceptions that keep the state *)

Inductive Outcome (A : Type) :=
| Returned (a : A)
| Raised (e : exn).
Arguments Returned {A} a.
Arguments Raised {A} e.

Definition M (A : Type) : Type := State → Outcome A * State.

Definition ret {A} (a : A) : M A := λ st, (Returned a, st).

Definition bind {A B} (c : M A) (k : A → M B) : M B :=
  λ st, match c st with
        | (Returned a, st') => k a st'
        | (Raised e, st') => (Raised e, st')
        end.

Definition raise {A} (e : exn) : M A := λ st, (Raised e, st).
Definition get : M State := λ st, (Returned st, st).
Definition modify (f : State → State) : M unit := λ st, (Returned tt, f st).

Notation "'let*' x ':=' c 'in' k" := (bind c (λ x, k))
  (at level 10, x name, c at level 100, k at level 200, only parsing).
Notation "'let*' ' p ':=' c 'in' k" := (bind c (λ x, match x with p => k end))
  (at level 10, p pattern, c at level 100, k at level 200, only parsing).

(** ** Numbers *)

(** [n / d] on Python ints with [d > 0] is the double nearest to the
    quotient, ties to even. [binade] is the exponent that leaves the
    quotient 53 bits; quotients of a [timedelta]'s microseconds by 10^6
    are far from the ends of the exponent range, which is not modelled. *)
Definition scaled (a d e : Z) : Z :=
  if 0 <=? e then a `div` (d * 2 ^ e) else (a * 2 ^ (- e)) `div` d.

Definition binade (a d : Z) : Z :=
  let e0 := Z.log2 a - Z.log2 d - 53 in
  if 2 ^ 53 <=? scaled a d e0 then e0 + 1 else e0.

Definition round_half_even (num den : Z) : Z :=
  let q := num `div` den in
  let r := num `mod` den in
  if (den <? 2 * r) || ((den =? 2 * r) && Z.odd q) then q + 1 else q.

Definition true_divide (n d : Z) : pyfloat :=
  if n =? 0 then Float 0 0
  else
    let a := Z.abs n in
    let e := binade a d in
    Float (Z.sgn n * (if 0 <=? e then round_half_even a (d * 2 ^ e)
                      else round_half_even (a * 2 ^ (- e)) d))
          e.

(** [timedelta.total_seconds()], for a [timedelta] of [us] microseconds:
    [us / 10**6]. *)
Definition total_seconds (us : Z) : pyfloat := true_divide us 1000000.

(** [m1 * 2^e1 <= m2 * 2^e2] *)
Definition dyadic_le (m1 e1 m2 e2 : Z) : bool :=
  let e := e1 `min` e2 in
  m1 * 2 ^ (e1 - e) <=? m2 * 2 ^ (e2 - e).

(** [x >= y] for a finite [float] [x] and a number [y]: Python compares
    the two values exactly. *)
Definition float_ge (x : pyfloat) (y : pynum) : bool :=
  match y with
  | PyInt n => dyadic_le n 0 (mantissa x) (exponent x)
  | PyFloat y => dyadic_le (mantissa y) (exponent y) (mantissa x) (exponent x)
  | PyInf negative => negative
  | PyNaN => false
  end.

(** [x * 100] in double arithmetic, and the integer nearest to a double,
    ties to even: the two steps of [format(x, ".0%")]. *)
Definition times_100 (x : pyfloat) : pyfloat :=
  if 0 <=? exponent x
  then true_divide (mantissa x * 100 * 2 ^ exponent x) 1
  else true_divide (mantissa x * 100) (2 ^ (- exponent x)).

Definition nearest_integer (x : pyfloat) : Z :=
  if 0 <=? exponent x then Z.abs (mantissa x) * 2 ^ exponent x
  else round_half_even (Z.abs (mantissa x)) (2 ^ (- exponent x)).

(** ** Strings *)

Definition is_upper (c : ascii) : bool :=
  (65 <=? nat_of_ascii c)%nat && (nat_of_ascii c <=? 90)%nat.
Definition is_lower (c : ascii) : bool :=
  (97 <=? nat_of_ascii c)%nat && (nat_of_ascii c <=? 122)%nat.

Definition lower_char (c : ascii) : ascii :=
  if is_upper c then ascii_of_nat (nat_of_ascii c + 32) else c.
Definition upper_char (c : ascii) : ascii :=
  if is_lower c then ascii_of_nat (nat_of_ascii c - 32) else c.

(** [str.lower], on the ASCII letters; other bytes are kept as they
    are. *)
Fixpoint lower (s : string) : string :=
  match s with
  | EmptyString => EmptyString
  | String c s' => String (lower_char c) (lower s')
  end.

(** [str.capitalize], on the ASCII letters: first character upper, the
    rest lower. *)
Definition capitalize (s : string) : string :=
  match s with
  | EmptyString => EmptyString
  | String c s' => String (upper_char c) (lower s')
  end.

(** [str.isascii] *)
Fixpoint isascii (s : string) : bool :=
  match s with
  | EmptyString => true
  | String c s' => (nat_of_ascii c <? 128)%nat && isascii s'
  end.

Fixpoint bytes (l : list nat) : string :=
  match l with
  | [] => EmptyString
  | n :: l' => String (ascii_of_nat n) (bytes l')
  end.

Fixpoint has_slash (s : string) : bool :=
  match s with
  | EmptyString => false
  | String c s' => Ascii.eqb c "/" || has_slash s'
  end.

(** The non-ASCII bytes that open the message literals of the source. *)
Definition icon_cat : string := bytes [239; 163; 191; 195; 188; 195; 170; 194; 177]%nat.
Definition icon_person : string := bytes [239; 163; 191; 195; 188; 195; 171; 194; 167]%nat.
Definition icon_generic : string := bytes [239; 163; 191; 195; 188; 195; 174; 195; 167]%nat.
Definition icon_warning : string :=
  bytes [226; 128; 154; 195; 182; 226; 128; 160; 195; 148; 226; 136; 143; 195; 168]%nat.

(** ** Pure helpers on the tracking fields *)

(** [self.detection_streak[s]] as a value ([defaultdict(int)]). *)
Definition streak_of (st : State) (s : string) : Z :=
  default 0 (detection_streak st !! s).

(** [self.last_notification[s]] as a value (default [datetime.min]). *)
Definition last_of (st : State) (s : string) : Z :=
  default datetime_min (last_notification st !! s).

(** The subject key of a detection: [det['label'].lower()]. *)
Definition subject_of (det : Detection) : string := lower (label det).

(** How many notifications of a list are about subject [s]. *)
Definition count_for (s : string) (l : list Notification) : nat :=
  length (filter (λ n, n_subject n = s) l).

(** ** The image directory *)

(** [sorted(..., key=lambda p: p.stat().st_ctime)]: the stable sort of the
    listing by [st_ctime], written as insertion from the right. *)
Fixpoint insert_by_ctime (f : File) (l : list File) : list File :=
  match l with
  | [] => [f]
  | g :: l' =>
      if st_ctime f <=? st_ctime g then f :: g :: l'
      else g :: insert_by_ctime f l'
  end.

Definition sorted_by_ctime (l : list File) : list File :=
  foldr insert_by_ctime [] l.

(** Creating or overwriting the entry [nm] of the directory. *)
Definition write_file (nm : string) (ctime : Z) (l : list File) : list File :=
  if bool_decide (nm ∈ fname <$> l)
  then (λ f, if String.eqb (fname f) nm then mkFile nm ctime else f) <$> l
  else l ++ [mkFile nm ctime].

Definition remove_file (nm : string) (l : list File) : list File :=
  filter (λ f, fname f ≠ nm) l.

Definition remove_files (nms : list string) (l : list File) : list File :=
  filter (λ f, fname f ∉ nms) l.

(** ** [NotificationManager] *)

Section Manager.
Context (env : Env) (cfg : Config).

(** [datetime.now()] *)
Definition now : M Z :=
  λ st, (Returned (clock env (ticks st)), set_ticks S st).

(** [self.last_notification[subject]]: a [defaultdict], so reading a
    missing key stores [datetime.min] under it. *)
Definition last_notification_get (subject : string) : M Z :=
  λ st, match last_notification st !! subject with
        | Some t => (Returned t, st)
        | None => (Returned datetime_min,
                   set_last (insert subject datetime_min) st)
        end.

(** [self.detection_streak[subject] += 1] *)
Definition detection_streak_incr (subject : string) : M unit :=
  modify (λ st, set_streak (insert subject (streak_of st subject + 1)) st).

(** [_is_cooled_down] *)
Definition _is_cooled_down (subject : string) : M bool :=
  let* t := now in
  let* last := last_notification_get subject in
  let time_since_last := t - last in
  ret (float_ge (total_seconds time_since_last) (cooldown_seconds cfg)).

(** [_create_notification] *)
Definition _create_notification (subject : string) (detection : Detection)
  : M string :=
  let confidence := format_percent env (confidence detection) in
  let* t := now in
  let timestamp := strftime env "%I:%M %p" t in
  ret (if String.eqb subject "miso" then
         icon_cat +:+ " Miso detected! (" +:+ confidence
           +:+ " confident) at " +:+ timestamp
       else if String.eqb subject "ozzy" then
         icon_cat +:+ " Ozzy detected! (" +:+ confidence
           +:+ " confident) at " +:+ timestamp
       else if String.eqb subject "person" then
         icon_person +:+ " Person detected! (" +:+ confidence
           +:+ " confident) at " +:+ timestamp
       else
         icon_generic +:+ " " +:+ capitalize subject +:+ " detected! ("
           +:+ confidence +:+ " confident) at " +:+ timestamp).

(** [cv2.imwrite(str(filepath), ...)] for [filepath = image_dir / filename].
    A written file is a new or overwritten entry of the directory when the
    path lies directly in it. *)
Definition cv2_imwrite (filename : string) : M bool :=
  λ st,
    let st' := set_writes S st in
    match imwrite env (writes st) (joinpath env (image_dir cfg) filename) with
    | Written c =>
        (Returned true,
         match dir_entry env (image_dir cfg) filename with
         | Some nm => set_snapshots (write_file nm c) st'
         | None => st'
         end)
    | NotWritten => (Returned false, st')
    | WriteRaises msg => (Raised (Cv2Error msg), st')
    end.

(** [oldest.unlink()] *)
Definition unlink (f : File) : M unit :=
  λ st,
    if bool_decide (fname f ∈ fname <$> snapshots st)
    then (Returned tt, set_snapshots (remove_file (fname f)) st)
    else (Raised (FileNotFoundError (joinpath env (image_dir cfg) (fname f))),
          st).

(** The [while len(images) > self.max_images] loop. [images.pop(0)] on an
    empty list is an [IndexError]. *)
Fixpoint cleanup_loop (images : list File) : M unit :=
  if max_images cfg <? Z.of_nat (length images) then
    match images with
    | [] => raise (IndexError "pop from empty list")
    | oldest :: images' =>
        let* _ := unlink oldest in
        cleanup_loop images'
    end
  else ret tt.

(** [_cleanup_old_images]. Between the listing and the deletions other
    processes may remove files ([vanished]). *)
Definition _cleanup_old_images : M unit :=
  if negb (save_images cfg) then ret tt
  else
    let* st := get in
    let images := sorted_by_ctime (snapshots st) in
    let* _ := modify (λ st, set_cleanups S
                (set_snapshots (remove_files (vanished env (cleanups st))) st)) in
    cleanup_loop images.

(** [snapshot = frame.copy()] *)
Definition copy_frame : M unit :=
  λ st, match frame_copy env (ticks st) with
        | None => (Returned tt, st)
        | Some e => (Raised e, st)
        end.

(** [from camera import PetCamera] *)
Definition import_camera : M unit :=
  match camera_import env with
  | None => ret tt
  | Some e => raise e
  end.

(** [det[key]] for a key the dict may lack. *)
Definition getitem {A} (key : string) (value : option A) : M A :=
  match value with
  | Some a => ret a
  | None => raise (KeyError key)
  end.

(** [x1, y1, x2, y2 = map(int, box)]: a [ValueError] unless the box has
    exactly four numbers ([int] of a finite float does not fail). *)
Definition unpack_box (box : list pyfloat) : M unit :=
  match box with
  | [_; _; _; _] => ret tt
  | _ =>
      raise (ValueError
               (if (length box <? 4)%nat
                then "not enough values to unpack (expected 4, got "
                       +:+ pretty (Z.of_nat (length box)) +:+ ")"
                else "too many values to unpack (expected 4)"))
  end.

(** [_draw_detection] ([camera.py]): the box is unpacked, then OpenCV
    draws the rectangle and the label on the frame. *)
Definition _draw_detection (box : list pyfloat) (label : string)
    (confidence : pyfloat) (color : Z * Z * Z) : M unit :=
  let* _ := unpack_box box in
  match cv2_draw env box label confidence color with
  | None => ret tt
  | Some e => raise e
  end.

(** [for det in detections: camera._draw_detection(snapshot, det['box'],
    det['label'], det['confidence'], det['color'])] *)
Fixpoint draw_loop (detections : list Detection) : M unit :=
  match detections with
  | [] => ret tt
  | det :: detections' =>
      let* box := getitem "box" (box det) in
      let* color := getitem "color" (color det) in
      let* _ := _draw_detection box (label det) (confidence det) color in
      draw_loop detections'
  end.

(** [_save_snapshot]. The frame is copied and every detection of the
    frame is drawn on the copy before the file name is chosen; the copy
    and what is drawn on it are pixel data. *)
Definition _save_snapshot (subject : string) (detections : list Detection)
  : M string :=
  let* _ := copy_frame in
  let* _ := import_camera in
  let* _ := draw_loop detections in
  let* t := now in
  let timestamp := strftime env "%Y%m%d_%H%M%S" t in
  let filename := subject +:+ "_" +:+ timestamp +:+ ".jpg" in
  let filepath := joinpath env (image_dir cfg) filename in
  let* _ := cv2_imwrite filename in
  let* _ := _cleanup_old_images in
  ret filepath.

(** The body of [for det in detections] in [process_detections]; the two
    locals [current_frame_subjects] and [notifications] are threaded. *)
Definition process_one (detections : list Detection) (det : Detection)
    (locals : gset string * list Notification)
  : M (gset string * list Notification) :=
  let subject := lower (label det) in
  let current_frame_subjects := locals.1 ∪ {[subject]} in
  let notifications := locals.2 in
  let* _ := detection_streak_incr subject in
  let* st := get in
  if persistence_frames cfg <=? streak_of st subject then
    if bool_decide (subject ∉ current_state st) then
      let* cooled := _is_cooled_down subject in
      if cooled then
        let* message := _create_notification subject det in
        let* image_path :=
          (if save_images cfg
           then let* p := _save_snapshot subject detections in ret (Some p)
           else ret None) in
        let notifications :=
          notifications ++ [mkNotification subject message image_path det] in
        let* t := now in
        let* _ := modify (set_last (insert subject t)) in
        let* _ := modify (set_current (λ c, c ∪ {[subject]})) in
        ret (current_frame_subjects, notifications)
      else ret (current_frame_subjects, notifications)
    else ret (current_frame_subjects, notifications)
  else ret (current_frame_subjects, notifications).

Fixpoint detection_loop (detections : list Detection) (rest : list Detection)
    (locals : gset string * list Notification)
  : M (gset string * list Notification) :=
  match rest with
  | [] => ret locals
  | det :: rest' =>
      let* locals' := process_one detections det locals in
      detection_loop detections rest' locals'
  end.

(** The body of [for subject in list(self.detection_streak.keys())]. *)
Definition reset_one (current_frame_subjects : gset string) (subject : string)
  : M unit :=
  if bool_decide (subject ∉ current_frame_subjects) then
    let* _ := modify (set_streak (insert subject 0)) in
    let* st := get in
    if bool_decide (subject ∈ current_state st)
    then modify (set_current (λ c, c ∖ {[subject]}))
    else ret tt
  else ret tt.

Fixpoint reset_loop (current_frame_subjects : gset string)
    (keys : list string) : M unit :=
  match keys with
  | [] => ret tt
  | subject :: keys' =>
      let* _ := reset_one current_frame_subjects subject in
      reset_loop current_frame_subjects keys'
  end.

(** [process_detections(frame, detections)] *)
Definition process_detections (detections : list Detection)
  : M (list Notification) :=
  let* locals := detection_loop detections detections (∅, []) in
  let* st := get in
  let* _ := reset_loop locals.1 (elements (dom (detection_streak st))) in
  ret locals.2.

(** [try: await platform.send(...) except Exception as e: print(...)] *)
Definition await_send (platform : Platform) (message : string)
    (image_path : option string) : M unit :=
  λ st,
    let eff := send platform message image_path in
    let st' :=
      set_attempts (λ l, l ++ [mkAttempt (name platform) message image_path
                                 (awaited st) (awaited st + took eff)])
        (set_awaited (λ t, t + took eff)
           (set_stdout (λ out, out ++ printed eff) st)) in
    match raised eff with
    | None => (Returned tt, st')
    | Some e => (Raised e, st')
    end.

Definition try_except {A} (body : M A) (handler : exn → M A) : M A :=
  λ st, match body st with
        | (Returned a, st') => (Returned a, st')
        | (Raised e, st') => handler e st'
        end.

Definition print (line : string) : M unit :=
  modify (set_stdout (λ out, out ++ [line])).

Definition failure_line (platform : Platform) (e : exn) : string :=
  icon_warning +:+ "  Failed to send notification via " +:+ name platform
    +:+ ": " +:+ str_exn e.

Fixpoint send_loop (notification : Notification) (ps : list Platform)
  : M unit :=
  match ps with
  | [] => ret tt
  | platform :: ps' =>
      let* _ := try_except
                  (await_send platform (n_message notification)
                     (n_image_path notification))
                  (λ e, print (failure_line platform e)) in
      send_loop notification ps'
  end.

(** [send_notification] *)
Definition send_notification (notification : Notification) : M unit :=
  send_loop notification (platforms cfg).

(** Frames fed one after the other, as a caller's loop does; a frame whose
    processing raised is recorded as such and the loop goes on. *)
Fixpoint run_frames (frames : list (list Detection)) (st : State)
  : list (Outcome (list Notification)) * State :=
  match frames with
  | [] => ([], st)
  | detections :: frames' =>
      let r := process_detections detections st in
      let rs := run_frames frames' r.2 in
      (r.1 :: rs.1, rs.2)
  end.

End Manager.

(** ** Platforms *)

Definition icon_bell : string :=
  bytes [239; 163; 191; 195; 188; 195; 174; 195; 174]%nat.
Definition icon_camera : string :=
  bytes [239; 163; 191; 195; 188; 195; 172; 226; 136; 145]%nat.
Definition newline : string := String (ascii_of_nat 10) EmptyString.

(** The base class [NotificationPlatform]: [send] raises
    [NotImplementedError]. [d] is the time the awaited call runs. *)
Definition NotificationPlatform (nm : string) (d : Z) : Platform :=
  mkPlatform nm (λ _ _, mkSendEffect d [] (Some NotImplementedError)).

(** [ConsoleNotifier]: prints the message, and the image path if any. *)
Definition ConsoleNotifier (d : Z) : Platform :=
  mkPlatform "Console"
    (λ message image_path,
       mkSendEffect d
         ((newline +:+ icon_bell +:+ " NOTIFICATION: " +:+ message)
            :: match image_path with
               | Some p => ["   " +:+ icon_camera +:+ " Image saved: " +:+ p]
               | None => []
               end)
         None).

(** ** Predicates used by the statements *)

(** The image store never fails: [cv2.imwrite] does not raise, nobody else
    deletes snapshots, and the bound is a count. *)
Definition storage_reliable (env : Env) (cfg : Config) : Prop :=
  (∀ n p msg, imwrite env n p ≠ WriteRaises msg) ∧
  (∀ n, vanished env n = []) ∧
  0 ≤ max_images cfg.

(** A detection as the camera makes it: it has a box of four coordinates
    and a colour. *)
Definition boxed (det : Detection) : Prop :=
  ∃ bx col, box det = Some bx ∧ color det = Some col ∧ length bx = 4%nat.

(** Drawing the detections of a frame never fails: frames can be copied,
    the camera module can be imported, every detection has its box of four
    coordinates and its colour, and OpenCV accepts it. *)
Definition drawable (env : Env) (detections : list Detection) : Prop :=
  (∀ n, frame_copy env n = None) ∧
  camera_import env = None ∧
  Forall (λ det, ∃ bx col,
            box det = Some bx ∧ color det = Some col ∧ length bx = 4%nat ∧
            cv2_draw env bx (label det) (confidence det) col = None)
    detections.

(** Nothing can go wrong with a snapshot of the frame: snapshots are
    switched off, or the store is reliable and the frame can be drawn. *)
Definition frame_ok (env : Env) (cfg : Config) (detections : list Detection)
  : Prop :=
  save_images cfg = false ∨
  (storage_reliable env cfg ∧ drawable env detections).


(** The three tracking fields agree. *)
Definition same_tracking (st st' : State) : Prop :=
  last_notification st' = last_notification st ∧
  current_state st' = current_state st ∧
  detection_streak st' = detection_streak st.

(** What every state the manager can be in satisfies: a present subject
    has a streak entry of at least 1, streaks are not negative, and the
    directory lists each name once. *)
Definition wf (st : State) : Prop :=
  (∀ s, s ∈ current_state st → s ∈ dom (detection_streak st)) ∧
  (∀ s, 0 ≤ streak_of st s) ∧
  (∀ s, s ∈ current_state st → 1 ≤ streak_of st s) ∧
  NoDup (fname <$> snapshots st).


(** The answer of the cooldown check for subject [s] when the clock is
    read at call number [tick]. *)
Definition cooled (env : Env) (cfg : Config) (st : State) (s : string)
    (tick : nat) : bool :=
  float_ge (total_seconds (clock env tick - last_of st s))
    (cooldown_seconds cfg).

(** The states [process_one] passes through for subject [s]: after the
    streak increment, after the cooldown check, after the message was
    composed, and after the notification was recorded. *)
Definition bump_streak (s : string) (st : State) : State :=
  set_streak (insert s (streak_of st s + 1)) st.

Definition touch_last (s : string) (st : State) : State :=
  match last_notification st !! s with
  | Some _ => st
  | None => set_last (insert s datetime_min) st
  end.

Definition after_check (s : string) (st : State) : State :=
  touch_last s (set_ticks S (bump_streak s st)).

Definition after_message (s : string) (st : State) : State :=
  set_ticks S (after_check s st).

Definition record_notified (env : Env) (s : string) (st : State) : State :=
  set_current (λ c, c ∪ {[s]})
    (set_last (insert s (clock env (ticks st))) (set_ticks S st)).

(** The listing a cleanup pass leaves when it finds [listing] and nothing
    fails: the oldest entries beyond the bound are gone. *)
Definition retained (cfg : Config) (listing : list File) : list File :=
  remove_files
    (fname <$> take (length listing - Z.to_nat (max_images cfg))
                 (sorted_by_ctime listing))
    listing.

(** The subject keys of a frame, and a frame in which exactly one
    detection bears subject [s]. *)
Definition subjects (detections : list Detection) : list string :=
  subject_of <$> detections.

Definition seen_once (s : string) (detections : list Detection) : Prop :=
  length (filter (λ d, subject_of d = s) detections) = 1%nat.

(** The detections the loop handles before it reaches subject [s]. *)
Fixpoint before (s : string) (detections : list Detection) : list Detection :=
  match detections with
  | [] => []
  | d :: ds => if decide (subject_of d = s) then [] else d :: before s ds
  end.

(** The number of the clock reading that [_is_cooled_down s] makes when
    the loop over [detections], started in [st], reaches subject [s]; and
    the answer it then gives. *)
Definition check_tick (env : Env) (cfg : Config) (s : string)
    (detections : list Detection) (st : State) : nat :=
  ticks (detection_loop env cfg detections (before s detections) (∅, []) st).2.

Definition gate_open (env : Env) (cfg : Config) (s : string)
    (detections : list Detection) (st : State) : bool :=
  cooled env cfg st s (check_tick env cfg s detections st).

(** The answers of the gate for [s], frame by frame, along a run. *)
Fixpoint gates (env : Env) (cfg : Config) (s : string)
    (frames : list (list Detection)) (st : State) : list bool :=
  match frames with
  | [] => []
  | detections :: frames' =>
      gate_open env cfg s detections st
        :: gates env cfg s frames' (process_detections env cfg detections st).2
  end.

(** Whether a frame in which [s] is seen raises a notification for [s]:
    the streak reaches the threshold, [s] is not marked present, and the
    gate lets it through. *)
Definition fires (env : Env) (cfg : Config) (s : string)
    (detections : list Detection) (st : State) : bool :=
  bool_decide (persistence_frames cfg ≤ streak_of st s + 1) &&
  bool_decide (s ∉ current_state st) &&
  gate_open env cfg s detections st.

Fixpoint first_open (l : list bool) : option nat :=
  match l with
  | [] => None
  | true :: _ => Some 0%nat
  | false :: l' => S <$> first_open l'
  end.

(** The file name [_save_snapshot] chooses in state [st], and the state
    right after its [cv2.imwrite], when the cleanup pass starts. *)
Definition snapshot_filename (env : Env) (subject : string) (st : State)
  : string :=
  subject +:+ "_" +:+ strftime env "%Y%m%d_%H%M%S" (clock env (ticks st))
    +:+ ".jpg".

Definition after_write (env : Env) (cfg : Config) (subject : string)
    (st : State) : State :=
  (cv2_imwrite env cfg (snapshot_filename env subject st) (set_ticks S st)).2.

(** The awaited calls [send_notification] makes from time [t0] on: one
    per platform, each starting when the one before it has finished. *)
Fixpoint schedule (n : Notification) (ps : list Platform) (t0 : Z)
  : list Attempt :=
  match ps with
  | [] => []
  | p :: ps' =>
      let d := took (send p (n_message n) (n_image_path n)) in
      mkAttempt (name p) (n_message n) (n_image_path n) t0 (t0 + d)
        :: schedule n ps' (t0 + d)
  end.

(** What one platform adds to standard output: its own lines, then the
    diagnostic line if its [send] raised. *)
Definition output_of (n : Notification) (p : Platform) : list string :=
  let eff := send p (n_message n) (n_image_path n) in
  printed eff ++ match raised eff with
                 | Some e => [failure_line p e]
                 | None => []
                 end.


Definition total_took (n : Notification) (ps : list Platform) : Z :=
  foldr (λ p acc, took (send p (n_message n) (n_image_path n)) + acc) 0 ps.

Definition slowest (n : Notification) (ps : list Platform) : Z :=
  foldr (λ p acc, took (send p (n_message n) (n_image_path n)) `max` acc) 0 ps.

(** The generic message template in the specification's words,
    ["{Subject} detected! ({confidence}% confident) at {time}"]: the
    subject capitalized, [percent] the confidence rendered as a
    percentage. *)
Definition generic_template (subject percent time : string) : string :=
  capitalize subject +:+ " detected! (" +:+ percent +:+ " confident) at "
    +:+ time.

(** The bytes that precede the subject in the message of the source. *)
Definition icon_of (subject : string) : string :=
  if String.eqb subject "miso" then icon_cat
  else if String.eqb subject "ozzy" then icon_cat
  else if String.eqb subject "person" then icon_person
  else icon_generic.

(** ** A concrete world *)

(** A clock that starts in the year 2026 and advances one second a
    reading; a [strftime] that prints seconds; [format(x, ".0%")] as Python
    computes it; paths as [pathlib] prints them for a plain relative
    directory and a file name without separators; a camera module that
    imports, an OpenCV that draws whatever it is given, and a store that
    always writes; nobody else in the directory. *)
Definition demo_clock (n : nat) : Z :=
  63900000000000000 + Z.of_nat n * 1000000.

Definition demo_percent (x : pyfloat) : string :=
  let y := times_100 x in
  (if mantissa y <? 0 then "-" else "") +:+ pretty (nearest_integer y) +:+ "%".

Definition plain_join (dir name : string) : string := dir +:+ "/" +:+ name.

Definition plain_entry (dir name : string) : option string :=
  if has_slash name then None else Some name.

Definition demo_env : Env :=
  mkEnv demo_clock (λ _ t, pretty (t `div` 1000000)) demo_percent
        plain_join plain_entry (λ _, None) None (λ _ _ _ _, None)
        (λ n _, Written (demo_clock n)) (λ _, []).

(** The same world with a neighbour who deletes [old.jpg] behind the
    manager's back, and with a clock that runs one microsecond behind. *)
Definition racing_env : Env :=
  mkEnv demo_clock (λ _ t, pretty (t `div` 1000000)) demo_percent
        plain_join plain_entry (λ _, None) None (λ _ _ _ _, None)
        (λ n _, Written (demo_clock n)) (λ _, ["old.jpg"]).

(** The neighbour removes [old.jpg] during the second cleanup pass. *)
Definition second_pass_env : Env :=
  mkEnv demo_clock (λ _ t, pretty (t `div` 1000000)) demo_percent
        plain_join plain_entry (λ _, None) None (λ _ _ _ _, None)
        (λ n _, Written (demo_clock n))
        (λ n, if (n =? 1)%nat then ["old.jpg"] else []).

Definition late_env : Env :=
  mkEnv (λ n, demo_clock n - 1) (λ _ t, pretty (t `div` 1000000)) demo_percent
        plain_join plain_entry (λ _, None) None (λ _ _ _ _, None)
        (λ n _, Written (demo_clock n)) (λ _, []).

(** A detection with confidence 0.75 as the camera makes it, and one with
    just the keys the docstring of [process_detections] asks for. *)
Definition sighting (l : string) : Detection :=
  mkDetection l (Float 3 (-2))
    (Some [Float 10 0; Float 20 0; Float 110 0; Float 220 0])
    (Some (0, 0, 0)) "pet".

Definition bare_sighting (l : string) : Detection :=
  mkDetection l (Float 3 (-2)) None None "pet".

Definition with_threshold (k : Z) : Config :=
  mkConfig (PyInt 300) k true "snapshots" 100 [].

(** A cooldown of 10^11 seconds, some 3170 years; and one of 63900000000
    seconds, which is what [demo_clock] first shows. *)
Definition long_cooldown : Config :=
  mkConfig (PyInt 100000000000) 1 true "snapshots" 100 [].

Definition rounded_cooldown : Config :=
  mkConfig (PyInt 63900000000) 1 false "snapshots" 100 [].

(** A cooldown of three seconds, confirming on the first sighting,
    without and with snapshots. *)
Definition short_cooldown : Config :=
  mkConfig (PyInt 3) 1 false "snapshots" 100 [].

Definition snapshots_short_cooldown : Config :=
  mkConfig (PyInt 3) 1 true "snapshots" 100 [].

(** The same with room for two snapshots. *)
Definition two_images : Config :=
  mkConfig (PyInt 3) 1 true "snapshots" 2 [].

(** Room for one snapshot only. *)
Definition one_image : Config :=
  mkConfig (PyInt 300) 1 true "snapshots" 1 [].

(** Two platforms whose sends take five time units each; the second
    always fails. *)
Definition two_platforms : Config :=
  mkConfig (PyInt 300) 5 true "snapshots" 100
    [ConsoleNotifier 5; NotificationPlatform "Pager" 5].

Definition hello : Notification :=
  mkNotification "miso" "Miso is here" None (sighting "Miso").

(** The state after Miso was seen and notified in one frame and then
    missing from the next. *)
Definition seen_then_gone : State :=
  (process_detections demo_env short_cooldown []
     (process_detections demo_env short_cooldown [sighting "Miso"]
        (init [])).2).2.

(** A world whose formatters print fixed text, one whose [cv2.imwrite]
    always returns [False], a manager with a negative bound, and a
    directory of two files. *)
Definition plain_env : Env :=
  mkEnv demo_clock (λ _ _, "now") (λ _, "75%")
        plain_join plain_entry (λ _, None) None (λ _ _ _ _, None)
        (λ n _, Written (demo_clock n)) (λ _, []).

Definition silent_failure_env : Env :=
  mkEnv demo_clock (λ _ _, "now") (λ _, "75%")
        plain_join plain_entry (λ _, None) None (λ _ _ _ _, None)
        (λ _ _, NotWritten) (λ _, []).

Definition negative_bound : Config :=
  mkConfig (PyInt 300) 5 true "snapshots" (-1) [].

Definition two_files : list File := [mkFile "a.jpg" 1; mkFile "b.jpg" 2].

(** ** [get_stats] *)

(** The dict [get_stats] returns. The comprehension reads only keys the
    [defaultdict] already has, so nothing is stored; the local time of day
    of a timestamp is printed with the environment's [strftime]. *)
Record Stats := mkStats {
  total_subjects_seen : nat;
  currently_detected : list string;
  images_saved : nat;
  last_notifications : gmap string string
}.

Definition get_stats (env : Env) (cfg : Config) (st : State) : Stats :=
  mkStats (size (last_notification st))
          (elements (current_state st))
          (if save_images cfg then length (snapshots st) else 0%nat)
          (strftime env "%I:%M %p"
             <$> filter (λ kv, kv.2 ≠ datetime_min) (last_notification st)).

(** ** [PetCamera] ([camera.py]) *)

(** The fields of [PetCamera] that colour assignment and frame skipping
    use. Timing figures ([fps], [inference_time]) are not modelled. *)
Record Camera := mkCamera {
  colors : gmap string (Z * Z * Z);
  pet_color_index : nat;
  frame_counter : Z;
  skip_frames : Z;
  last_detections : list Detection
}.

Definition default_pet_colors : list (Z * Z * Z) :=
  [(255, 100, 255); (255, 150, 0); (100, 255, 100);
   (200, 100, 255); (100, 200, 255); (255, 200, 100)].

(** The fields as [__init__] sets them. *)
Definition new_camera (skip : Z) : Camera :=
  mkCamera (<["person" := (0, 200, 255)]>
              (<["background" := (128, 128, 128)]> ∅)) 0 0 skip [].

(** [_get_color_for_label] *)
Definition _get_color_for_label (label : string) (cam : Camera)
  : (Z * Z * Z) * Camera :=
  let label_lower := lower label in
  match colors cam !! label_lower with
  | Some c => (c, cam)
  | None =>
      let color :=
        nth (pet_color_index cam `mod` length default_pet_colors)
            default_pet_colors (0, 0, 0) in
      (color,
       mkCamera (<[label_lower := color]> (colors cam))
                (S (pet_color_index cam)) (frame_counter cam)
                (skip_frames cam) (last_detections cam))
  end.

(** The two detectors, as functions of the frame: the class name,
    confidence and box of each cat box, the confidence and box of each
    person box. *)
Record Detectors (Frame : Type) := mkDetectors {
  cat_model : Frame → list (string * pyfloat * list pyfloat);
  people_model : Frame → list (pyfloat * list pyfloat)
}.
Arguments cat_model {Frame} _ _.
Arguments people_model {Frame} _ _.

(** The loop over the cat boxes in [_detect]. *)
Fixpoint cat_detections (boxes : list (string * pyfloat * list pyfloat))
    (cam : Camera) (detections : list Detection)
  : list Detection * Camera :=
  match boxes with
  | [] => (detections, cam)
  | (class_name, conf, bx) :: boxes' =>
      if String.eqb class_name "background"
      then cat_detections boxes' cam detections
      else
        let r := _get_color_for_label class_name cam in
        cat_detections boxes' r.2
          (detections ++ [mkDetection (capitalize class_name) conf (Some bx)
                            (Some r.1) "pet"])
  end.

(** The loop over the person boxes; [self.colors['person']] is a plain
    dict access, a [KeyError] ([None]) when the key is missing. *)
Fixpoint people_detections (boxes : list (pyfloat * list pyfloat))
    (cam : Camera) (detections : list Detection) : option (list Detection) :=
  match boxes with
  | [] => Some detections
  | (conf, bx) :: boxes' =>
      match colors cam !! "person" with
      | Some c =>
          people_detections boxes' cam
            (detections ++ [mkDetection "Person" conf (Some bx) (Some c)
                              "person"])
      | None => None
      end
  end.

(** [_detect] *)
Definition _detect {Frame} (models : Detectors Frame) (frame : Frame)
    (cam : Camera) : option (list Detection * Camera) :=
  let counter := frame_counter cam + 1 in
  let cam1 := mkCamera (colors cam) (pet_color_index cam) counter
                (skip_frames cam) (last_detections cam) in
  if (0 <? skip_frames cam) && negb (counter `mod` (skip_frames cam + 1) =? 0)
  then Some (last_detections cam1, cam1)
  else
    let r := cat_detections (cat_model models frame) cam1 [] in
    match people_detections (people_model models frame) r.2 r.1 with
    | Some detections =>
        Some (detections,
              mkCamera (colors r.2) (pet_color_index r.2) (frame_counter r.2)
                (skip_frames r.2) detections)
    | None => None
    end.

(** Colours asked for one label after the other, and [_detect] called on
    one frame after the other. *)
Fixpoint colors_for (labels : list string) (cam : Camera)
  : list (Z * Z * Z) * Camera :=
  match labels with
  | [] => ([], cam)
  | l :: labels' =>
      let r := _get_color_for_label l cam in
      let rs := colors_for labels' r.2 in
      (r.1 :: rs.1, rs.2)
  end.

Fixpoint detect_all {Frame} (models : Detectors Frame) (frames : list Frame)
    (cam : Camera) : option (list (list Detection) * Camera) :=
  match frames with
  | [] => Some ([], cam)
  | frame :: frames' =>
      match _detect models frame cam with
      | Some (detections, cam') =>
          match detect_all models frames' cam' with
          | Some (rest, cam'') => Some (detections :: rest, cam'')
          | None => None
          end
      | None => None
      end
  end.

(** The subjects a frame notified, when it returned. *)
Definition notified (out : Outcome (list Notification))
  : option (list string) :=
  match out with
  | Returned notifications => Some (n_subject <$> notifications)
  | Raised _ => None
  end.

(** ** Names for parts of [process_one] *)

(** The message [_create_notification] returns in state [st]. *)
Definition message_of (env : Env) (s : string) (det : Detection) (st : State)
  : string :=
  match (_create_notification env s det st).1 with
  | Returned m => m
  | Raised _ => ""
  end.

(** The [image_path] part of the loop body: [None], or the path that
    [_save_snapshot] returns when [save_images] is set. *)
Definition take_snapshot (env : Env) (cfg : Config) (s : string)
    (detections : list Detection) : M (option string) :=
  if save_images cfg
  then let* p := _save_snapshot env cfg s detections in ret (Some p)
  else ret None.

(** How many detections of a frame bear subject [s]. *)
Definition sightings (s : string) (detections : list Detection) : nat :=
  length (filter (λ d, subject_of d = s) detections).

(** What every notification of a frame must look like: it is about one of
    the frame's detections, keyed by that detection's lower-cased label,
    and carries an image path exactly when snapshots are switched on. *)
Definition describes (cfg : Config) (detections : list Detection)
    (n : Notification) : Prop :=
  n_detection n ∈ detections ∧
  n_subject n = subject_of (n_detection n) ∧
  if save_images cfg then is_Some (n_image_path n) else n_image_path n = None.

(** * Properties *)

Lemma bind_returned {A B} (c : M A) (k : A → M B) st a st' :
  c st = (Returned a, st') → bind c k st = k a st'.
Proof. unfold bind. by intros ->. Qed.

Lemma bind_raised {A B} (c : M A) (k : A → M B) st e st' :
  c st = (Raised e, st') → bind c k st = (Raised e, st').
Proof. unfold bind. by intros ->. Qed.

(** *** The double nearest to a quotient *)

Lemma round_half_even_lower num den :
  0 < den → num `div` den ≤ round_half_even num den.
Proof.
  intros Hd. unfold round_half_even.
  destruct (_ || _); lia.
Qed.

Lemma round_half_even_upper num den :
  0 < den → 2 * round_half_even num den * den ≤ 2 * num + den.
Proof.
  intros Hd. unfold round_half_even.
  pose proof (Z.div_mod num den ltac:(lia)) as Hdm.
  pose proof (Z.mod_pos_bound num den Hd) as Hm.
  destruct (den <? 2 * (num `mod` den)) eqn:H1; simpl.
  - apply Z.ltb_lt in H1. nia.
  - destruct (den =? 2 * (num `mod` den)) eqn:H2; simpl.
    + apply Z.eqb_eq in H2. destruct (Z.odd _); nia.
    + nia.
Qed.

Lemma binade_cases a d :
  binade a d = Z.log2 a - Z.log2 d - 53 ∨ 
  (binade a d = Z.log2 a - Z.log2 d - 53 + 1 ∧
   2 ^ 53 ≤ scaled a d (Z.log2 a - Z.log2 d - 53)).
Proof.
  unfold binade.
  destruct (Z.leb_spec (2 ^ 53) (scaled a d (Z.log2 a - Z.log2 d - 53))); auto.
Qed.

(** In a binade with a non-negative exponent the quotient has 53 bits. *)
Lemma scaled_binade_lower a d :
  0 < a → 0 < d → 0 ≤ binade a d → 2 ^ 52 * (d * 2 ^ binade a d) ≤ a.
Proof.
  intros Ha Hd He.
  destruct (Z.log2_spec a Ha) as [Hla _].
  destruct (Z.log2_spec d Hd) as [_ Hld].
  pose proof (Z.log2_nonneg a). pose proof (Z.log2_nonneg d).
  set (e0 := Z.log2 a - Z.log2 d - 53) in *.
  destruct (binade_cases a d) as [Hb|[Hb Hs]]; fold e0 in Hb; rewrite Hb in *.
  - assert (Hpow : 2 ^ Z.log2 a = 2 ^ 52 * (2 ^ (Z.log2 d + 1) * 2 ^ e0)).
    { rewrite <- !Z.pow_add_r by lia. f_equal. lia. }
    assert (0 < 2 ^ e0) by (apply Z.pow_pos_nonneg; lia).
    etransitivity; [|exact Hla]. rewrite Hpow.
    apply Z.mul_le_mono_nonneg_l; [by apply Z.pow_nonneg|].
    apply Z.mul_le_mono_nonneg_r; [lia|].
    apply Z.lt_le_incl. by rewrite Z.add_1_r.
  - fold e0 in Hs. unfold scaled in Hs.
    destruct (Z.leb_spec 0 e0).
    + assert (0 < 2 ^ e0) by (apply Z.pow_pos_nonneg; lia).
      rewrite Z.pow_add_r by lia. change (2 ^ 1) with 2.
      assert (Hq : 2 ^ 53 * (d * 2 ^ e0) ≤ a).
      { etransitivity; [apply Z.mul_le_mono_nonneg_r; [nia|exact Hs]|].
        rewrite Z.mul_comm. apply Z.mul_div_le. nia. }
      change (2 ^ 53) with (2 ^ 52 * 2) in Hq. nia.
    + assert (e0 = -1) as -> by lia. change (2 ^ (-1 + 1)) with 1.
      change (2 ^ (- -1)) with 2 in Hs.
      assert (Hq : 2 ^ 53 * d ≤ a * 2).
      { etransitivity; [apply Z.mul_le_mono_nonneg_r; [lia|exact Hs]|].
        rewrite Z.mul_comm. apply Z.mul_div_le. lia. }
      change (2 ^ 53) with (2 ^ 52 * 2) in Hq. lia.
Qed.

(** [x >= c] holds for the double [x] nearest to [n / d] whenever it holds
    for the quotient itself, for every integer [c] that is itself a
    double. *)
Lemma true_divide_ge n d c :
  0 < d → 0 ≤ c ≤ 2 ^ 53 → c * d ≤ n →
  float_ge (true_divide n d) (PyInt c) = true.
Proof.
  intros Hd Hc Hn. unfold true_divide.
  destruct (Z.eqb_spec n 0) as [->|Hne].
  - assert (c = 0) as -> by nia. reflexivity.
  - assert (Hpos : 0 < n) by nia.
    rewrite Z.abs_eq, Z.sgn_pos by lia. rewrite Z.mul_1_l.
    pose proof (scaled_binade_lower n d Hpos Hd) as Hlow.
    generalize dependent (binade n d). intros e Hlow.
    unfold float_ge, dyadic_le. cbn [mantissa exponent].
    apply Z.leb_le.
    destruct (Z.leb_spec 0 e) as [He|He].
    + rewrite Z.min_l by lia. rewrite !Z.sub_0_r. change (2 ^ 0) with 1.
      rewrite Z.mul_1_r.
      assert (Hp : 0 < 2 ^ e) by (apply Z.pow_pos_nonneg; lia).
      pose proof (round_half_even_lower n (d * 2 ^ e) ltac:(nia)) as Hr.
      specialize (Hlow He).
      assert (Hq : 2 ^ 52 ≤ n `div` (d * 2 ^ e)).
      { apply Z.div_le_lower_bound; [nia|]. lia. }
      destruct (decide (e = 0)) as [He0|He0].
      * subst e. change (2 ^ 0) with 1 in *. rewrite Z.mul_1_r in *.
        assert (c ≤ n `div` d) by (apply Z.div_le_lower_bound; lia).
        rewrite Z.mul_1_r. lia.
      * assert (H2 : 2 ≤ 2 ^ e).
        { change 2 with (2 ^ 1) at 1. apply Z.pow_le_mono_r; lia. }
        change (2 ^ 53) with (2 ^ 52 * 2) in Hc.
        etransitivity; [apply Hc|].
        apply Z.mul_le_mono_nonneg; [done|lia|done|lia].
    + rewrite Z.min_r by lia. rewrite Z.sub_diag. change (2 ^ 0) with 1.
      rewrite Z.mul_1_r. rewrite Z.sub_0_l.
      assert (Hp : 0 < 2 ^ (- e)) by (apply Z.pow_pos_nonneg; lia).
      pose proof (round_half_even_lower (n * 2 ^ (- e)) d Hd) as Hr.
      assert (c * 2 ^ (- e) ≤ (n * 2 ^ (- e)) `div` d).
      { apply Z.div_le_lower_bound; [lia|]. nia. }
      lia.
Qed.

(** The rounded magnitude of a non-zero quotient is not zero. *)
Lemma magnitude_pos a d :
  0 < a → 0 < d →
  0 < (if 0 <=? binade a d then round_half_even a (d * 2 ^ binade a d)
       else round_half_even (a * 2 ^ (- binade a d)) d).
Proof.
  intros Ha Hd.
  destruct (Z.leb_spec 0 (binade a d)) as [He|He].
  - pose proof (scaled_binade_lower a d Ha Hd He) as Hlow.
    assert (Hp : 0 < 2 ^ binade a d) by (apply Z.pow_pos_nonneg; lia).
    pose proof (round_half_even_lower a (d * 2 ^ binade a d) ltac:(nia)) as Hr.
    assert (Hq : 2 ^ 52 ≤ a `div` (d * 2 ^ binade a d)).
    { apply Z.div_le_lower_bound; [nia|]. lia. }
    assert (0 < 2 ^ 52) by done. lia.
  - pose proof (round_half_even_lower (a * 2 ^ (- binade a d)) d Hd) as Hr.
    destruct (Z.log2_spec a Ha) as [Hla _].
    destruct (Z.log2_spec d Hd) as [_ Hld].
    pose proof (Z.log2_nonneg a). pose proof (Z.log2_nonneg d).
    rewrite <- Z.add_1_r in Hld.
    assert (Hexp : Z.log2 d + 1 ≤ Z.log2 a + - binade a d)
      by (destruct (binade_cases a d) as [Hb|[Hb _]]; lia).
    assert (Hge : d ≤ a * 2 ^ (- binade a d)).
    { apply Z.lt_le_incl. eapply Z.lt_le_trans; [exact Hld|].
      etransitivity; [apply (Z.pow_le_mono_r 2 _ _ ltac:(lia) Hexp)|].
      rewrite Z.pow_add_r by lia.
      apply Z.mul_le_mono_nonneg_r; [|done]. apply Z.pow_nonneg. lia. }
    assert (1 ≤ (a * 2 ^ (- binade a d)) `div` d).
    { apply Z.div_le_lower_bound; lia. }
    lia.
Qed.


(** For a whole number of seconds [c] of at most [2^53] microseconds,
    [total_seconds() >= c] is false whenever the timedelta is shorter than
    [c] seconds, be it by one microsecond. *)
Lemma total_seconds_lt us c :
  0 ≤ c → c * 1000000 ≤ 2 ^ 53 → us < c * 1000000 →
  float_ge (total_seconds us) (PyInt c) = false.
Proof.
  intros Hc Hb Hlt. unfold total_seconds, true_divide.
  destruct (Z.eqb_spec us 0) as [->|Hne].
  - unfold float_ge, dyadic_le. cbn. apply Z.leb_gt. lia.
  - unfold float_ge, dyadic_le. cbn [mantissa exponent].
    apply Z.leb_gt.
    pose proof (magnitude_pos (Z.abs us) 1000000 ltac:(lia) ltac:(lia)) as Hmag.
    assert (Hcases := binade_cases (Z.abs us) 1000000).
    change (Z.log2 1000000) with 19 in Hcases.
    remember (binade (Z.abs us) 1000000) as e eqn:Heqe. clear Heqe.
    assert (Hp1 : 0 < 2 ^ (e - 0 `min` e)) by (apply Z.pow_pos_nonneg; lia).
    assert (Hp2 : 0 < 2 ^ (0 - 0 `min` e)) by (apply Z.pow_pos_nonneg; lia).
    destruct (Z.ltb_spec us 0) as [Hneg|Hpos].
    + rewrite Z.sgn_neg by lia. nia.
    + rewrite Z.sgn_pos by lia. rewrite Z.mul_1_l.
      rewrite Z.abs_eq in * by lia.
      assert (Hl : Z.log2 us < 53) by (apply Z.log2_lt_pow2; lia).
      assert (He : e ≤ -19) by (destruct Hcases as [?|[? _]]; lia).
      destruct (Z.leb_spec 0 e); [lia|].
      clear Hp1 Hp2. rewrite Z.min_r by lia. rewrite Z.sub_diag.
      change (0 - e) with (- e). change (2 ^ 0) with 1. rewrite Z.mul_1_r.
      pose proof (round_half_even_upper (us * 2 ^ (- e)) 1000000 ltac:(lia)) as Hup.
      assert (HP : 2 ^ 19 ≤ 2 ^ (- e)) by (apply Z.pow_le_mono_r; lia).
      change (2 ^ 19) with 524288 in HP.
      nia.
Qed.

Lemma total_seconds_ge us c :
  0 ≤ c ≤ 2 ^ 53 → c * 1000000 ≤ us →
  float_ge (total_seconds us) (PyInt c) = true.
Proof. intros Hc Hle. by apply true_divide_ge. Qed.

Lemma same_tracking_refl st : same_tracking st st.
Proof. by unfold same_tracking. Qed.

Lemma same_tracking_trans st1 st2 st3 :
  same_tracking st1 st2 → same_tracking st2 st3 → same_tracking st1 st3.
Proof. unfold same_tracking. intros (?&?&?) (?&?&?). repeat split; congruence. Qed.

(** *** The stable sort by [st_ctime] *)

Lemma insert_by_ctime_perm f l : insert_by_ctime f l ≡ₚ f :: l.
Proof.
  induction l as [|g l IH]; simpl; [done|].
  destruct (st_ctime f <=? st_ctime g); [done|].
  rewrite IH. apply Permutation_swap.
Qed.

Lemma sorted_by_ctime_perm l : sorted_by_ctime l ≡ₚ l.
Proof.
  induction l as [|f l IH]; simpl; [done|].
  rewrite insert_by_ctime_perm. by rewrite IH.
Qed.




(** *** The image directory *)

Lemma remove_files_nil l : remove_files [] l = l.
Proof.
  unfold remove_files. induction l as [|f l IH]; [done|].
  rewrite filter_cons_True; [by rewrite IH|]. apply not_elem_of_nil.
Qed.

Lemma remove_file_files nm nms l :
  remove_files nms (remove_file nm l) = remove_files (nm :: nms) l.
Proof.
  unfold remove_files, remove_file. rewrite list_filter_filter.
  apply list_filter_iff. intros f. rewrite not_elem_of_cons. tauto.
Qed.

Lemma elem_of_names_remove_file nm x l :
  x ∈ fname <$> remove_file nm l ↔ x ≠ nm ∧ x ∈ fname <$> l.
Proof.
  unfold remove_file. rewrite !list_elem_of_fmap. split.
  - intros (f & -> & Hf). apply list_elem_of_filter in Hf as [? ?]. eauto.
  - intros (Hne & f & -> & Hf). exists f. split; [done|].
    by apply list_elem_of_filter.
Qed.

Lemma NoDup_names_filter (P : File → Prop) `{∀ f, Decision (P f)} l :
  NoDup (fname <$> l) → NoDup (fname <$> filter P l).
Proof.
  induction l as [|f l IH]; [done|]. rewrite fmap_cons, NoDup_cons.
  intros [Hnin Hnd]. rewrite filter_cons. destruct (decide (P f)); [|by apply IH].
  rewrite fmap_cons, NoDup_cons. split; [|by apply IH].
  intros Hin. apply Hnin. apply list_elem_of_fmap in Hin as (g & -> & Hg).
  apply list_elem_of_filter in Hg as [_ Hg]. by apply list_elem_of_fmap_2.
Qed.

Lemma names_write_file nm c l :
  nm ∈ fname <$> l → fname <$> write_file nm c l = fname <$> l.
Proof.
  intros Hin. unfold write_file. rewrite bool_decide_eq_true_2 by done.
  rewrite <- list_fmap_compose. apply list_fmap_ext. intros i f _. simpl.
  destruct (String.eqb_spec (fname f) nm); by subst.
Qed.

Lemma NoDup_names_write_file nm c l :
  NoDup (fname <$> l) → NoDup (fname <$> write_file nm c l).
Proof.
  intros Hnd. destruct (decide (nm ∈ fname <$> l)) as [Hin|Hnin].
  - by rewrite names_write_file.
  - unfold write_file. rewrite bool_decide_eq_false_2 by done.
    rewrite fmap_app. apply NoDup_app. split_and!; [done| |].
    + intros x Hx [->|[]%elem_of_nil]%elem_of_cons. done.
    + apply NoDup_singleton.
Qed.

Section Storage.
Context (env : Env) (cfg : Config).

(** Whatever its outcome, the cleanup loop touches the directory only. *)
Lemma cleanup_loop_frame images st :
  same_tracking st (cleanup_loop env cfg images st).2 ∧
  ticks (cleanup_loop env cfg images st).2 = ticks st ∧
  (NoDup (fname <$> snapshots st) →
   NoDup (fname <$> snapshots (cleanup_loop env cfg images st).2)).
Proof.
  revert st. induction images as [|f images IH]; intros st; simpl.
  - destruct (max_images cfg <? _); simpl; split_and!; done.
  - destruct (max_images cfg <? _); simpl; [|split_and!; done].
    unfold bind, unlink. case_bool_decide; simpl; [|split_and!; done].
    destruct (IH (set_snapshots (remove_file (fname f)) st)) as (Ht & Hk & Hn).
    split_and!; [exact Ht|exact Hk|].
    intros Hnd. apply Hn. simpl. by apply NoDup_names_filter.
Qed.

(** With nobody interfering and a non-negative bound, the loop deletes the
    first [length images - max_images] entries of the sorted listing and
    returns. *)
Lemma cleanup_loop_ok images st :
  0 ≤ max_images cfg →
  NoDup (fname <$> images) →
  (∀ f, f ∈ images → fname f ∈ fname <$> snapshots st) →
  cleanup_loop env cfg images st =
    (Returned tt,
     set_snapshots
       (remove_files
          (fname <$> take (length images - Z.to_nat (max_images cfg)) images))
       st).
Proof.
  intros Hmax. revert st. induction images as [|f images IH]; intros st Hnd Hin.
  - simpl. destruct (Z.ltb_spec (max_images cfg) (Z.of_nat 0)); [lia|].
    unfold ret. f_equal. destruct st. unfold set_snapshots. simpl.
    by rewrite remove_files_nil.
  - cbn [cleanup_loop].
    destruct (Z.ltb_spec (max_images cfg) (Z.of_nat (length (f :: images)))) as [Hlt|Hge].
    + apply NoDup_cons in Hnd as [Hnin Hnd].
      assert (Hf : fname f ∈ fname <$> snapshots st)
        by (apply Hin; apply elem_of_cons; by left).
      erewrite bind_returned; last first.
      { unfold unlink. by rewrite bool_decide_eq_true_2. }
      rewrite IH; [| done |].
      * f_equal. simpl in Hlt.
        replace (length (f :: images) - Z.to_nat (max_images cfg))%nat
          with (S (length images - Z.to_nat (max_images cfg)))%nat
          by (simpl; lia).
        destruct st. unfold set_snapshots. simpl. f_equal.
        apply remove_file_files.
      * intros g Hg. simpl. apply elem_of_names_remove_file. split.
        -- intros Heq. apply Hnin. rewrite <- Heq. by apply list_elem_of_fmap_2.
        -- apply Hin. apply elem_of_cons. by right.
    + simpl in Hge.
      replace (length (f :: images) - Z.to_nat (max_images cfg))%nat with 0%nat
        by (simpl; lia).
      unfold ret. f_equal. destruct st. unfold set_snapshots. simpl.
      by rewrite remove_files_nil.
Qed.

Lemma cleanup_old_images_frame st :
  same_tracking st (_cleanup_old_images env cfg st).2 ∧
  ticks (_cleanup_old_images env cfg st).2 = ticks st ∧
  (NoDup (fname <$> snapshots st) →
   NoDup (fname <$> snapshots (_cleanup_old_images env cfg st).2)).
Proof.
  unfold _cleanup_old_images. destruct (save_images cfg); simpl.
  - unfold bind, get, modify.
    match goal with |- context [cleanup_loop env cfg ?i ?s] =>
      destruct (cleanup_loop_frame i s) as (Ht & Hk & Hn) end.
    split_and!; [exact Ht|exact Hk|].
    intros Hnd. apply Hn. simpl. by apply NoDup_names_filter.
  - split_and!; done.
Qed.

Lemma cleanup_old_images_ok st :
  save_images cfg = true →
  storage_reliable env cfg →
  NoDup (fname <$> snapshots st) →
  _cleanup_old_images env cfg st =
    (Returned tt, set_cleanups S (set_snapshots (retained cfg) st)).
Proof.
  intros Hsave (_ & Hvan & Hmax) Hnd.
  unfold _cleanup_old_images. rewrite Hsave. simpl.
  unfold bind, get, modify.
  rewrite cleanup_loop_ok; [| done | |].
  - f_equal. destruct st. unfold set_cleanups, set_snapshots, retained. simpl.
    rewrite Hvan, remove_files_nil.
    rewrite (Permutation_length (sorted_by_ctime_perm _)). done.
  - by rewrite (sorted_by_ctime_perm (snapshots st)).
  - intros f Hf. simpl. rewrite Hvan, remove_files_nil.
    apply list_elem_of_fmap_2. by rewrite <- (sorted_by_ctime_perm (snapshots st)).
Qed.

Lemma retained_perm listing :
  NoDup (fname <$> listing) →
  retained cfg listing ≡ₚ
    drop (length listing - Z.to_nat (max_images cfg)) (sorted_by_ctime listing).
Proof.
  intros Hnd. unfold retained, remove_files.
  set (k := (length listing - Z.to_nat (max_images cfg))%nat).
  assert (Hs : NoDup (fname <$> sorted_by_ctime listing))
    by (by rewrite (sorted_by_ctime_perm listing)).
  rewrite <- (take_drop k (sorted_by_ctime listing)) in Hs.
  rewrite fmap_app in Hs. apply NoDup_app in Hs as (Hn1 & Hdisj & Hn2).
  apply NoDup_Permutation.
  - apply NoDup_filter. by apply NoDup_fmap_1 in Hnd.
  - by apply NoDup_fmap_1 in Hn2.
  - intros f. rewrite list_elem_of_filter. split.
    + intros [Hnin Hf].
      rewrite <- (sorted_by_ctime_perm listing) in Hf.
      rewrite <- (take_drop k (sorted_by_ctime listing)) in Hf.
      apply elem_of_app in Hf as [Hf|Hf]; [|done].
      exfalso. apply Hnin. by apply list_elem_of_fmap_2.
    + intros Hf. split.
      * intros Hin. eapply Hdisj; [exact Hin|]. by apply list_elem_of_fmap_2.
      * rewrite <- (sorted_by_ctime_perm listing).
        by eapply (subseteq_drop k).
Qed.

Lemma retained_length listing :
  NoDup (fname <$> listing) →
  length (retained cfg listing) = (length listing `min` Z.to_nat (max_images cfg))%nat.
Proof.
  intros Hnd. rewrite (Permutation_length (retained_perm listing Hnd)).
  rewrite length_drop, (Permutation_length (sorted_by_ctime_perm _)). lia.
Qed.

Lemma cv2_imwrite_frame filename st :
  same_tracking st (cv2_imwrite env cfg filename st).2 ∧
  ticks (cv2_imwrite env cfg filename st).2 = ticks st ∧
  (NoDup (fname <$> snapshots st) →
   NoDup (fname <$> snapshots (cv2_imwrite env cfg filename st).2)).
Proof.
  unfold cv2_imwrite. destruct (imwrite env _ _); simpl; try done.
  destruct (dir_entry env (image_dir cfg) filename); simpl;
    (split_and!; [done|done|]); [|done].
  apply NoDup_names_write_file.
Qed.

(** Importing the camera module and drawing change nothing that is
    modelled, and succeed on a frame that can be drawn. *)
Lemma copy_frame_frame st : (copy_frame env st).2 = st.
Proof. unfold copy_frame. by destruct (frame_copy env _). Qed.

Lemma import_camera_frame st : (import_camera env st).2 = st.
Proof. unfold import_camera. by destruct (camera_import env). Qed.

Lemma draw_detection_frame bx l conf col st :
  (_draw_detection env bx l conf col st).2 = st.
Proof.
  unfold _draw_detection, unpack_box, bind.
  destruct bx as [|? [|? [|? [|? [|? ?]]]]]; simpl; try done.
  by destruct (cv2_draw env _ _ _ _).
Qed.

Lemma draw_loop_frame detections st : (draw_loop env detections st).2 = st.
Proof.
  induction detections as [|det detections IH]; simpl; [done|].
  unfold bind, getitem.
  destruct (box det) as [bx|]; [|done]. unfold ret at 1.
  destruct (color det) as [col|]; [|done]. unfold ret at 1.
  pose proof (draw_detection_frame bx (label det) (confidence det) col st)
    as Hd.
  destruct (_draw_detection env bx (label det) (confidence det) col st)
    as [[[]|e] st1]; simpl in *; subst; [apply IH|done].
Qed.

Lemma draw_loop_ok detections st :
  Forall (λ det, ∃ bx col,
            box det = Some bx ∧ color det = Some col ∧ length bx = 4%nat ∧
            cv2_draw env bx (label det) (confidence det) col = None)
    detections →
  draw_loop env detections st = (Returned tt, st).
Proof.
  induction 1 as [|det detections (bx & col & Hbox & Hcol & Hlen & Hdraw) _ IH];
    simpl; [done|].
  rewrite Hbox, Hcol. unfold getitem, bind at 1 2 3. unfold ret at 1 2.
  unfold _draw_detection, unpack_box, bind. rewrite Hdraw.
  destruct bx as [|? [|? [|? [|? [|? ?]]]]]; simpl in *; try discriminate.
  exact IH.
Qed.

(** The snapshot step up to the choice of the file name. *)
Lemma save_snapshot_unfold subject detections st :
  _save_snapshot env cfg subject detections st =
    match copy_frame env st with
    | (Raised e, _) => (Raised e, st)
    | (Returned _, _) =>
        match import_camera env st with
        | (Raised e, _) => (Raised e, st)
        | (Returned _, _) =>
            match draw_loop env detections st with
            | (Raised e, _) => (Raised e, st)
            | (Returned _, _) =>
                bind (cv2_imwrite env cfg (snapshot_filename env subject st))
                  (λ _, bind (_cleanup_old_images env cfg)
                          (λ _, ret (joinpath env (image_dir cfg)
                                       (snapshot_filename env subject st))))
                  (set_ticks S st)
            end
        end
    end.
Proof.
  unfold _save_snapshot. unfold bind at 1.
  pose proof (copy_frame_frame st) as Hc.
  destruct (copy_frame env st) as [[[]|e] st1]; simpl in Hc; subst st1;
    [|done].
  unfold bind at 1.
  pose proof (import_camera_frame st) as Hi.
  destruct (import_camera env st) as [[[]|e] st1]; simpl in Hi; subst st1;
    [|done].
  unfold bind at 1.
  pose proof (draw_loop_frame detections st) as Hd.
  destruct (draw_loop env detections st) as [[[]|e] st1]; simpl in Hd;
    subst st1; [|done].
  unfold bind at 1. unfold now at 1. done.
Qed.

Lemma save_snapshot_frame subject detections st :
  same_tracking st (_save_snapshot env cfg subject detections st).2 ∧
  (ticks st ≤ ticks (_save_snapshot env cfg subject detections st).2)%nat ∧
  (NoDup (fname <$> snapshots st) →
   NoDup (fname <$> snapshots (_save_snapshot env cfg subject detections st).2)).
Proof.
  rewrite save_snapshot_unfold.
  destruct (copy_frame env st) as [[[]|e] ?];
    [|split_and!; [apply same_tracking_refl|done|done]].
  destruct (import_camera env st) as [[[]|e] ?];
    [|split_and!; [apply same_tracking_refl|done|done]].
  destruct (draw_loop env detections st) as [[[]|e] ?];
    [|split_and!; [apply same_tracking_refl|done|done]].
  unfold bind.
  match goal with |- context [cv2_imwrite env cfg ?f ?s] =>
    destruct (cv2_imwrite_frame f s) as (Ht1 & Hk1 & Hn1);
    destruct (cv2_imwrite env cfg f s) as [[b|e] st1] end; simpl in *.
  - destruct (cleanup_old_images_frame st1) as (Ht2 & Hk2 & Hn2).
    destruct (_cleanup_old_images env cfg st1) as [[[]|e] st2]; simpl in *;
      (split_and!; [by eapply same_tracking_trans|lia|by auto]).
  - split_and!; [done|lia|done].
Qed.

(** On a frame that can be drawn and with a reliable store the snapshot
    step returns the path it chose, after writing and cleaning up. *)
Lemma save_snapshot_ok subject detections st :
  save_images cfg = true →
  storage_reliable env cfg →
  drawable env detections →
  NoDup (fname <$> snapshots st) →
  _save_snapshot env cfg subject detections st =
    (Returned (joinpath env (image_dir cfg) (snapshot_filename env subject st)),
     set_cleanups S (set_snapshots (retained cfg) (after_write env cfg subject st))).
Proof.
  intros Hsave Hrel (Hcopy & Himp & Hdraw) Hnd. rewrite save_snapshot_unfold.
  unfold copy_frame. rewrite Hcopy.
  unfold import_camera. rewrite Himp. unfold ret at 1.
  rewrite (draw_loop_ok detections st Hdraw). unfold after_write.
  destruct (cv2_imwrite_frame (snapshot_filename env subject st)
              (set_ticks S st)) as (_ & _ & Hn).
  specialize (Hn Hnd).
  destruct (cv2_imwrite env cfg (snapshot_filename env subject st)
              (set_ticks S st)) as [[b|e] st1] eqn:Hw.
  - erewrite bind_returned by exact Hw.
    unfold bind. rewrite cleanup_old_images_ok by done. done.
  - exfalso. unfold cv2_imwrite in Hw. destruct Hrel as (Hnr & _).
    destruct (imwrite env _ _) eqn:Hi; try done. by apply Hnr in Hi.
Qed.

End Storage.

(** *** One detection *)

Section Tracker.
Context (env : Env) (cfg : Config).

Lemma is_cooled_down_spec s st :
  _is_cooled_down env cfg s st =
    (Returned (cooled env cfg st s (ticks st)), touch_last s (set_ticks S st)).
Proof.
  unfold _is_cooled_down, bind, now, last_notification_get, touch_last,
    cooled, last_of, ret. simpl.
  destruct (last_notification st !! s); done.
Qed.

Lemma create_notification_spec s det st :
  ∃ msg, _create_notification env s det st = (Returned msg, set_ticks S st).
Proof. unfold _create_notification, bind, now, ret. simpl. eauto. Qed.

Lemma streak_of_bump s x st :
  streak_of (bump_streak s st) x =
    if decide (s = x) then streak_of st s + 1 else streak_of st x.
Proof.
  unfold bump_streak, streak_of. simpl. rewrite lookup_insert.
  by destruct (decide (s = x)); subst.
Qed.

Lemma last_of_touch s x st : last_of (touch_last s st) x = last_of st x.
Proof.
  unfold touch_last, last_of.
  destruct (last_notification st !! s) eqn:Hs; [done|]. simpl.
  rewrite lookup_insert. destruct (decide (s = x)); subst; [by rewrite Hs|done].
Qed.

Lemma touch_last_fields s st :
  current_state (touch_last s st) = current_state st ∧
  detection_streak (touch_last s st) = detection_streak st ∧
  ticks (touch_last s st) = ticks st ∧
  snapshots (touch_last s st) = snapshots st.
Proof. unfold touch_last. by destruct (_ !! _). Qed.

Lemma snapshots_after_message s st :
  snapshots (after_message s st) = snapshots st.
Proof.
  unfold after_message, after_check. simpl.
  by destruct (touch_last_fields s (set_ticks S (bump_streak s st)))
    as (_ & _ & _ & ->).
Qed.

(** The four ways the loop body can go for a detection of subject [s]. *)
Lemma process_one_cases detections det locals st :
  let s := subject_of det in
  let r := process_one env cfg detections det locals st in
  let cur := locals.1 ∪ {[s]} in
  (¬ (persistence_frames cfg ≤ streak_of st s + 1 ∧ (s ∉ current_state st)) ∧
   r = (Returned (cur, locals.2), bump_streak s st)) ∨
  (persistence_frames cfg ≤ streak_of st s + 1 ∧ (s ∉ current_state st) ∧
   cooled env cfg st s (ticks st) = false ∧
   r = (Returned (cur, locals.2), after_check s st)) ∨
  (persistence_frames cfg ≤ streak_of st s + 1 ∧ (s ∉ current_state st) ∧
   cooled env cfg st s (ticks st) = true ∧
   ∃ st4, same_tracking (after_message s st) st4 ∧
          (ticks (after_message s st) ≤ ticks st4)%nat ∧
          (NoDup (fname <$> snapshots st) → NoDup (fname <$> snapshots st4)) ∧
          ((∃ e, r = (Raised e, st4) ∧ save_images cfg = true ∧
                 (_save_snapshot env cfg s detections (after_message s st)).1
                   = Raised e) ∨
           (∃ msg ip, r = (Returned (cur, locals.2 ++
                                  [mkNotification s msg ip det]),
                           record_notified env s st4)))).
Proof.
  intros s r cur. assert (Hr : r = process_one env cfg detections det locals st) by done.
  clearbody r. unfold process_one in Hr. fold (subject_of det) in Hr. fold s in Hr.
  unfold detection_streak_incr in Hr. unfold bind at 1 in Hr.
  unfold modify at 1 in Hr. unfold bind at 1 in Hr. unfold get at 1 in Hr.
  fold (bump_streak s st) in Hr.
  rewrite streak_of_bump in Hr. rewrite decide_True in Hr by done.
  destruct (Z.leb_spec (persistence_frames cfg) (streak_of st s + 1)) as [Hpf|Hpf];
    [|left; split; [lia|done]].
  replace (current_state (bump_streak s st)) with (current_state st) in Hr by done.
  case_bool_decide as Hcs; [|left; split; [tauto|done]].
  right. unfold bind at 1 in Hr. rewrite is_cooled_down_spec in Hr.
  replace (cooled env cfg (bump_streak s st) s (ticks (bump_streak s st)))
    with (cooled env cfg st s (ticks st)) in Hr by done.
  fold (after_check s st) in Hr.
  destruct (cooled env cfg st s (ticks st)) eqn:Hcool;
    [right|left; split_and!; done].
  split_and!; [done..|].
  destruct (create_notification_spec s det (after_check s st)) as [msg Hmsg].
  unfold bind at 1 in Hr. rewrite Hmsg in Hr. fold (after_message s st) in Hr.
  destruct (save_images cfg) eqn:Hsave.
  - destruct (save_snapshot_frame env cfg s detections (after_message s st))
      as (Ht & Hk & Hn).
    rewrite snapshots_after_message in Hn.
    unfold bind at 1 in Hr. unfold bind at 1 in Hr.
    destruct (_save_snapshot env cfg s detections (after_message s st))
      as [[p|e] st4] eqn:Hsnap; simpl in *.
    + exists st4. split_and!; [done|lia|done|]. right. by exists msg, (Some p).
    + exists st4. split_and!; [done|lia|done|]. left. by exists e.
  - exists (after_message s st). split_and!; [apply same_tracking_refl|lia| |].
    + by rewrite snapshots_after_message.
    + right. by exists msg, None.
Qed.

Lemma after_message_fields s st :
  detection_streak (after_message s st)
    = <[s:=streak_of st s + 1]> (detection_streak st) ∧
  current_state (after_message s st) = current_state st ∧
  (∀ x, last_of (after_message s st) x = last_of st x) ∧
  ticks (after_message s st) = S (S (ticks st)).
Proof.
  unfold after_message, after_check.
  destruct (touch_last_fields s (set_ticks S (bump_streak s st)))
    as (Hc & Hd & Hk & _).
  simpl. rewrite Hc, Hd, Hk. split_and!; try done.
  intros x. unfold last_of at 1. simpl. fold (last_of (touch_last s (set_ticks S (bump_streak s st))) x).
  by rewrite last_of_touch.
Qed.

Lemma after_check_fields s st :
  detection_streak (after_check s st)
    = <[s:=streak_of st s + 1]> (detection_streak st) ∧
  current_state (after_check s st) = current_state st ∧
  (∀ x, last_of (after_check s st) x = last_of st x) ∧
  ticks (after_check s st) = S (ticks st) ∧
  snapshots (after_check s st) = snapshots st.
Proof.
  unfold after_check.
  destruct (touch_last_fields s (set_ticks S (bump_streak s st)))
    as (Hc & Hd & Hk & Hs).
  rewrite Hc, Hd, Hk, Hs. split_and!; try done.
  intros x. by rewrite last_of_touch.
Qed.

Lemma count_for_snoc x l n :
  count_for x (l ++ [n]) =
    (count_for x l + if decide (n_subject n = x) then 1 else 0)%nat.
Proof.
  unfold count_for. rewrite filter_app, length_app. f_equal.
  rewrite filter_cons. by destruct (decide (n_subject n = x)).
Qed.

(** What one pass of the loop body does to the tracking fields, whatever
    its outcome. *)
Lemma process_one_view detections det locals st :
  let s := subject_of det in
  let r := process_one env cfg detections det locals st in
  (∀ x, streak_of r.2 x =
          if decide (s = x) then streak_of st s + 1 else streak_of st x) ∧
  (∀ x, x ≠ s → (x ∈ current_state r.2 ↔ x ∈ current_state st)) ∧
  (s ∈ current_state st → s ∈ current_state r.2) ∧
  (∀ x, x ≠ s → last_of r.2 x = last_of st x) ∧
  (∀ x, x ∈ dom (detection_streak r.2) ↔ x = s ∨ x ∈ dom (detection_streak st)) ∧
  (ticks st ≤ ticks r.2)%nat ∧
  (NoDup (fname <$> snapshots st) → NoDup (fname <$> snapshots r.2)) ∧
  (∀ l', r.1 = Returned l' →
         l'.1 = locals.1 ∪ {[s]} ∧
         ∀ x, x ≠ s → count_for x l'.2 = count_for x locals.2).
Proof.
  intros s r.
  assert (Hdom : ∀ m x, x ∈ dom (<[s:=streak_of st s + 1]> m : gmap string Z)
                        ↔ x = s ∨ x ∈ dom m)
    by (intros m x; rewrite dom_insert; set_solver).
  assert (Hstr : ∀ st', detection_streak st'
                   = <[s:=streak_of st s + 1]> (detection_streak st) →
            ∀ x, streak_of st' x =
              if decide (s = x) then streak_of st s + 1 else streak_of st x).
  { intros st' Heq x. unfold streak_of at 1. rewrite Heq, lookup_insert.
    by destruct (decide (s = x)). }
  destruct (process_one_cases detections det locals st)
    as [(_ & Hr)|[(_ & _ & _ & Hr)|(_ & Hcs & _ & st4 & Ht & Hk & Hn & Hr)]];
    fold s in Hr; fold r in Hr; try fold s in Ht, Hk.
  - rewrite Hr. simpl.
    split_and!; [by apply Hstr|done|done|done|apply Hdom|lia|done|].
    intros l' [= <-]. done.
  - destruct (after_check_fields s st) as (Hd & Hc & Hl & Hk & Hs).
    rewrite Hr. simpl. rewrite Hc, Hk, Hs, Hd.
    split_and!; [by apply Hstr|done|done|done|apply Hdom|lia|done|].
    intros l' [= <-]. done.
  - destruct (after_message_fields s st) as (Hd & Hc & Hl & Hk').
    destruct Ht as (Ht1 & Ht2 & Ht3). rewrite Hk' in Hk.
    destruct Hr as [(e & Hr & _)|(msg & ip & Hr)]; rewrite Hr; simpl.
    + rewrite Ht2, Ht3, Hc, Hd.
      split_and!; [|done|done| |apply Hdom|lia|done|done].
      * apply Hstr. by rewrite Ht3.
      * intros x Hx. unfold last_of. rewrite Ht1. apply Hl.
    + rewrite Ht2, Ht3, Hc, Hd.
      split_and!; [| | | |apply Hdom|lia|done|].
      * apply Hstr. simpl. by rewrite Ht3.
      * intros x Hx. rewrite elem_of_union, elem_of_singleton. tauto.
      * intros Hin. apply elem_of_union. by left.
      * intros x Hx. unfold last_of. simpl. rewrite lookup_insert_ne by done.
        rewrite Ht1. apply Hl.
      * intros l' [= <-]. simpl. split; [done|]. intros x Hx.
        rewrite count_for_snoc. simpl. rewrite decide_False by done. lia.
Qed.

Lemma process_one_wf detections det locals st :
  wf st → wf (process_one env cfg detections det locals st).2.
Proof.
  intros (Hdom & Hpos & Hone & Hnd).
  destruct (process_one_view detections det locals st)
    as (Hstr & Hcs & _ & _ & Hd & _ & Hn & _).
  set (s := subject_of det) in *.
  set (r := process_one env cfg detections det locals st) in *.
  split_and!.
  - intros x Hx. apply Hd. destruct (decide (x = s)) as [->|Hne]; [by left|].
    right. apply Hdom. by apply Hcs.
  - intros x. rewrite Hstr. destruct (decide (s = x)); [|done].
    specialize (Hpos s). lia.
  - intros x Hx. rewrite Hstr. destruct (decide (s = x)) as [|Hne].
    + specialize (Hpos s). lia.
    + apply Hone. apply Hcs; [congruence|done].
  - by apply Hn.
Qed.

Lemma process_one_returns detections det locals st :
  frame_ok env cfg detections → NoDup (fname <$> snapshots st) →
  ∃ l', (process_one env cfg detections det locals st).1 = Returned l'.
Proof.
  intros Hok Hnd.
  destruct (process_one_cases detections det locals st)
    as [(_ & Hr)|[(_ & _ & _ & Hr)|(_ & _ & _ & st4 & _ & _ & _ &
         [(e & Hr & Hsave & Hsnap)|(msg & ip & Hr)])]];
    try (rewrite Hr; simpl; by eauto).
  destruct Hok as [Hoff|[Hrel Hdraw]]; [congruence|].
  rewrite (save_snapshot_ok env cfg (subject_of det) detections
             (after_message (subject_of det) st) Hsave Hrel Hdraw) in Hsnap.
  - done.
  - by rewrite snapshots_after_message.
Qed.

(** *** The loop over the detections of a frame *)

Lemma detection_loop_app detections pre post locals st :
  detection_loop env cfg detections (pre ++ post) locals st =
    bind (detection_loop env cfg detections pre locals)
         (detection_loop env cfg detections post) st.
Proof.
  revert locals st. induction pre as [|d pre IH]; intros locals st; [done|].
  simpl. unfold bind at 1 2 3.
  destruct (process_one env cfg detections d locals st) as [[l'|e] st']; [|done].
  rewrite IH. done.
Qed.

Lemma detection_loop_view detections rest locals st :
  let r := detection_loop env cfg detections rest locals st in
  (∀ x, x ∉ subjects rest →
        streak_of r.2 x = streak_of st x ∧
        (x ∈ current_state r.2 ↔ x ∈ current_state st) ∧
        last_of r.2 x = last_of st x) ∧
  (∀ x, x ∈ dom (detection_streak st) → x ∈ dom (detection_streak r.2)) ∧
  (ticks st ≤ ticks r.2)%nat ∧
  (wf st → wf r.2) ∧
  (∀ l', r.1 = Returned l' →
         (∀ x, x ∈ l'.1 ↔ x ∈ locals.1 ∨ x ∈ subjects rest) ∧
         ∀ x, x ∉ subjects rest → count_for x l'.2 = count_for x locals.2).
Proof.
  revert locals st. induction rest as [|d rest IH]; intros locals st; simpl.
  - split_and!; try done. intros l' [= <-]. split; [|done].
    intros x. rewrite elem_of_nil. tauto.
  - destruct (process_one_view detections d locals st)
      as (Hstr & Hcs & _ & Hl & Hd & Hk & _ & Hloc).
    pose proof (process_one_wf detections d locals st) as Hwf.
    unfold bind.
    destruct (process_one env cfg detections d locals st) as [[l1|e] st1];
      simpl in *.
    + destruct (IH l1 st1) as (IH1 & IH2 & IH3 & IH4 & IH5).
      split_and!.
      * intros x Hx. apply not_elem_of_cons in Hx as [Hne Hx].
        destruct (IH1 x Hx) as (-> & -> & ->).
        rewrite Hstr, decide_False by done. split_and!; [done| |by apply Hl].
        by apply Hcs.
      * intros x Hx. apply IH2, Hd. by right.
      * lia.
      * auto.
      * intros l' Hl'. destruct (IH5 l' Hl') as [Hin Hcnt].
        destruct (Hloc l1 eq_refl) as [Hl1 Hc1]. split.
        -- intros x. rewrite Hin, Hl1, elem_of_union, elem_of_singleton,
             elem_of_cons. tauto.
        -- intros x Hx. apply not_elem_of_cons in Hx as [Hne Hx].
           rewrite Hcnt by done. by apply Hc1.
    + split_and!; [|by intros; apply Hd; right|done|done|done].
      intros x Hx. apply not_elem_of_cons in Hx as [Hne Hx].
      rewrite Hstr, decide_False by done. split_and!; [done| |by apply Hl].
      by apply Hcs.
Qed.

Lemma detection_loop_returns detections rest locals st :
  frame_ok env cfg detections → NoDup (fname <$> snapshots st) →
  ∃ l', (detection_loop env cfg detections rest locals st).1 = Returned l'.
Proof.
  intros Hok. revert locals st.
  induction rest as [|d rest IH]; intros locals st Hnd; simpl; [by eauto|].
  destruct (process_one_returns detections d locals st Hok Hnd) as [l1 Hl1].
  destruct (process_one_view detections d locals st)
    as (_ & _ & _ & _ & _ & _ & Hn & _).
  unfold bind.
  destruct (process_one env cfg detections d locals st) as [[l1'|e] st1];
    simpl in *; [|done].
  by apply IH, Hn.
Qed.

(** *** The reset loop *)

Lemma reset_loop_spec cur keys st :
  ∃ st', reset_loop cur keys st = (Returned tt, st') ∧
    (∀ x, detection_streak st' !! x =
            if decide (x ∈ keys ∧ x ∉ cur) then Some 0
            else detection_streak st !! x) ∧
    (∀ x, x ∈ current_state st' ↔
            x ∈ current_state st ∧ ¬ (x ∈ keys ∧ x ∉ cur)) ∧
    last_notification st' = last_notification st ∧
    ticks st' = ticks st ∧
    snapshots st' = snapshots st.
Proof.
  revert st. induction keys as [|k keys IH]; intros st; simpl.
  - exists st. split_and!; [done| | |done..].
    + intros x. destruct (decide (x ∈ [] ∧ x ∉ cur)) as [[[]%elem_of_nil _]|]; done.
    + intros x. rewrite elem_of_nil. tauto.
  - unfold bind at 1. unfold reset_one.
    destruct (decide (k ∈ cur)) as [Hk|Hk].
    + rewrite bool_decide_eq_false_2 by tauto. unfold ret at 1.
      destruct (IH st) as (st' & -> & Hs & Hc & Hl & Ht & Hf).
      exists st'. split_and!; [done| | |done..].
      * intros x. rewrite Hs. pose proof (elem_of_cons keys x k) as Hcons.
        destruct (decide (x ∈ keys ∧ x ∉ cur)) as [Hd|Hd].
        -- rewrite decide_True; [done|]. tauto.
        -- rewrite decide_False; [done|]. rewrite Hcons. intros [[->|?] ?]; tauto.
      * intros x. rewrite Hc, elem_of_cons. split; [|tauto].
        intros [? Hn]. split; [done|]. intros [[->|?] ?]; tauto.
    + rewrite bool_decide_eq_true_2 by done.
      unfold bind at 1. unfold modify at 1. unfold bind at 1. unfold get at 1.
      set (st1 := set_streak <[k:=0]> st).
      assert (∃ st2, (if bool_decide (k ∈ current_state st1)
                      then modify (set_current (λ c, c ∖ {[k]}))
                      else ret tt) st1 = (Returned tt, st2) ∧
                detection_streak st2 = <[k:=0]> (detection_streak st) ∧
                (∀ x, x ∈ current_state st2 ↔ x ∈ current_state st ∧ x ≠ k) ∧
                last_notification st2 = last_notification st ∧
                ticks st2 = ticks st ∧ snapshots st2 = snapshots st)
        as (st2 & -> & Hs2 & Hc2 & Hl2 & Ht2 & Hf2).
      { case_bool_decide as Hin.
        - eexists. split; [reflexivity|]. simpl. split_and!; [done| |done..].
          intros x. rewrite elem_of_difference, elem_of_singleton. tauto.
        - exists st1. split_and!; [done..| |done|done|done]. intros x. split; [|tauto].
          intros Hx. split; [done|]. intros ->. by apply Hin. }
      destruct (IH st2) as (st' & -> & Hs & Hc & Hl & Ht & Hf).
      exists st'. split_and!; [done| | |congruence..].
      * intros x. rewrite Hs, Hs2. pose proof (elem_of_cons keys x k) as Hcons.
        destruct (decide (x ∈ keys ∧ x ∉ cur)) as [Hd|Hd].
        -- rewrite decide_True; [done|]. tauto.
        -- destruct (decide (x = k)) as [->|Hne].
           ++ rewrite decide_True by tauto. by rewrite lookup_insert_eq.
           ++ rewrite decide_False by (rewrite Hcons; intros [[?|?] ?]; tauto).
              by rewrite lookup_insert_ne.
      * intros x. rewrite Hc, Hc2, elem_of_cons. split.
        -- intros [[? ?] ?]. split; [done|]. intros [[?|?] ?]; tauto.
        -- intros [? Hn]. split_and!; [done| |tauto].
           intros ->. apply Hn. split; [by left|done].
Qed.

(** *** One frame *)

Lemma process_detections_unfold detections st :
  match detection_loop env cfg detections detections (∅, []) st with
  | (Raised e, st1) => process_detections env cfg detections st = (Raised e, st1)
  | (Returned l1, st1) =>
      ∃ st', process_detections env cfg detections st = (Returned l1.2, st') ∧
        (∀ x, detection_streak st' !! x =
                if decide (x ∈ dom (detection_streak st1) ∧ x ∉ l1.1)
                then Some 0 else detection_streak st1 !! x) ∧
        (∀ x, x ∈ current_state st' ↔
                x ∈ current_state st1 ∧
                ¬ (x ∈ dom (detection_streak st1) ∧ x ∉ l1.1)) ∧
        last_notification st' = last_notification st1 ∧
        ticks st' = ticks st1 ∧
        snapshots st' = snapshots st1
  end.
Proof.
  destruct (detection_loop env cfg detections detections (∅, []) st)
    as [[l1|e] st1] eqn:Hloop; unfold process_detections;
    [|by erewrite bind_raised by exact Hloop].
  erewrite bind_returned by exact Hloop.
  unfold bind at 1. unfold get at 1. unfold bind at 1.
  destruct (reset_loop_spec l1.1 (elements (dom (detection_streak st1))) st1)
    as (st' & -> & Hs & Hc & Hl & Ht & Hf).
  exists st'. split_and!; [done| | |done..].
  - intros x. rewrite Hs.
    destruct (decide (x ∈ elements (dom (detection_streak st1)) ∧ x ∉ l1.1))
      as [[H1 H2]|Hn].
    + rewrite decide_True; [done|]. by rewrite <- elem_of_elements.
    + rewrite decide_False; [done|]. by rewrite <- elem_of_elements.
  - intros x. rewrite Hc. by rewrite elem_of_elements.
Qed.

Lemma process_detections_returns detections st :
  frame_ok env cfg detections → NoDup (fname <$> snapshots st) →
  ∃ notifications st',
    process_detections env cfg detections st = (Returned notifications, st').
Proof.
  intros Hok Hnd.
  destruct (detection_loop_returns detections detections (∅, []) st Hok Hnd)
    as [l1 Hl1].
  pose proof (process_detections_unfold detections st) as Hu.
  destruct (detection_loop env cfg detections detections (∅, []) st)
    as [[l1'|e] st1]; simpl in *; [|done].
  destruct Hu as (st' & Hu & _). eauto.
Qed.

Lemma streak_of_reset st1 st' (cur : gset string) x :
  (∀ y, detection_streak st' !! y =
          if decide (y ∈ dom (detection_streak st1) ∧ y ∉ cur)
          then Some 0 else detection_streak st1 !! y) →
  streak_of st' x = if decide (x ∈ cur) then streak_of st1 x else 0.
Proof.
  intros Hs. unfold streak_of. rewrite Hs.
  destruct (decide (x ∈ cur)) as [Hc|Hc].
  - rewrite decide_False; [done|]. tauto.
  - destruct (decide (x ∈ dom (detection_streak st1) ∧ x ∉ cur)) as [|Hn]; [done|].
    assert (Hnd : x ∉ dom (detection_streak st1)) by tauto.
    apply not_elem_of_dom in Hnd. by rewrite Hnd.
Qed.

Lemma process_detections_wf detections st :
  wf st → wf (process_detections env cfg detections st).2.
Proof.
  intros Hwf.
  destruct (detection_loop_view detections detections (∅, []) st)
    as (_ & _ & _ & Hwf1 & _).
  specialize (Hwf1 Hwf).
  pose proof (process_detections_unfold detections st) as Hu.
  destruct (detection_loop env cfg detections detections (∅, []) st)
    as [[l1|e] st1]; simpl in *; [|by rewrite Hu].
  destruct Hu as (st' & -> & Hs & Hc & Hl & Ht & Hf). simpl.
  destruct Hwf1 as (Hdom & Hpos & Hone & Hnd).
  assert (Hkeep : ∀ x, x ∈ current_state st' → x ∈ current_state st1 ∧ x ∈ l1.1).
  { intros x Hx. apply Hc in Hx as [Hx Hn]. split; [done|].
    destruct (decide (x ∈ l1.1)); [done|]. exfalso. apply Hn. auto. }
  split_and!.
  - intros x Hx. apply Hkeep in Hx as [Hx Hcur]. apply elem_of_dom.
    rewrite Hs, decide_False by tauto. apply elem_of_dom. auto.
  - intros x. rewrite (streak_of_reset st1 st' l1.1 x Hs).
    destruct (decide (x ∈ l1.1)); [apply Hpos|done].
  - intros x Hx. apply Hkeep in Hx as [Hx Hcur].
    rewrite (streak_of_reset st1 st' l1.1 x Hs), decide_True by done. auto.
  - by rewrite Hf.
Qed.

(** A subject that a frame does not show. *)
Lemma frame_absent detections st x notifications st' :
  wf st → x ∉ subjects detections →
  process_detections env cfg detections st = (Returned notifications, st') →
  streak_of st' x = 0 ∧ (x ∉ current_state st') ∧
  last_of st' x = last_of st x ∧ count_for x notifications = 0%nat.
Proof.
  intros Hwf Hx Hr.
  destruct (detection_loop_view detections detections (∅, []) st)
    as (Hview & _ & _ & Hwf1 & Hloc).
  specialize (Hwf1 Hwf). destruct (Hview x Hx) as (Hst & Hpr & Hla).
  pose proof (process_detections_unfold detections st) as Hu.
  destruct (detection_loop env cfg detections detections (∅, []) st)
    as [[l1|e] st1]; simpl in *; [|congruence].
  destruct Hu as (st2 & Hu & Hs & Hc & Hl & Ht & Hf).
  rewrite Hr in Hu. injection Hu as -> ->.
  destruct (Hloc l1 eq_refl) as [Hin Hcnt].
  assert (Hcur : x ∉ l1.1).
  { rewrite Hin. intros [[]%elem_of_empty|?]. done. }
  split_and!.
  - by rewrite (streak_of_reset st1 st2 l1.1 x Hs), decide_False.
  - intros Hp. apply Hc in Hp as [Hp Hn]. apply Hn. split; [|done].
    destruct Hwf1 as (Hdom & _). by apply Hdom.
  - unfold last_of. rewrite Hl. apply Hla.
  - by rewrite Hcnt.
Qed.

(** *** A subject seen once in a frame *)

Lemma before_not_in s detections : s ∉ subjects (before s detections).
Proof.
  induction detections as [|d ds IH]; simpl; [apply not_elem_of_nil|].
  destruct (decide (subject_of d = s)); [apply not_elem_of_nil|].
  unfold subjects. rewrite fmap_cons. apply not_elem_of_cons. by split.
Qed.

Lemma seen_once_split s detections :
  seen_once s detections →
  ∃ d post, detections = before s detections ++ d :: post ∧
            subject_of d = s ∧ s ∉ subjects post.
Proof.
  unfold seen_once. induction detections as [|d ds IH]; simpl; [done|].
  rewrite filter_cons. destruct (decide (subject_of d = s)) as [Heq|Hne].
  - simpl. intros [= Hlen]. exists d, ds. split_and!; [done..|].
    apply length_zero_iff_nil in Hlen.
    intros (d' & Hs & Hd')%list_elem_of_fmap.
    eapply (filter_nil_not_elem_of _ _ d'); [exact Hlen|by simpl|done].
  - intros Hlen. destruct (IH Hlen) as (d' & post & Hsplit & Hs & Hpost).
    exists d', post. split_and!; [|done..]. simpl. by rewrite <- Hsplit.
Qed.

Lemma cooled_ext st st' s tick :
  last_of st' s = last_of st s →
  cooled env cfg st' s tick = cooled env cfg st s tick.
Proof. unfold cooled. by intros ->. Qed.

Lemma loop_seen_once all rest locals st s l2 st2 :
  wf st → seen_once s rest →
  detection_loop env cfg all rest locals st = (Returned l2, st2) →
  let tick := ticks (detection_loop env cfg all (before s rest) locals st).2 in
  let fire := bool_decide (persistence_frames cfg ≤ streak_of st s + 1) &&
              bool_decide (s ∉ current_state st) &&
              cooled env cfg st s tick in
  s ∈ l2.1 ∧ wf st2 ∧ (ticks st ≤ ticks st2)%nat ∧
  streak_of st2 s = streak_of st s + 1 ∧
  if fire
  then count_for s l2.2 = S (count_for s locals.2) ∧
       s ∈ current_state st2 ∧
       ∃ t, (ticks st ≤ t < ticks st2)%nat ∧ last_of st2 s = clock env t
  else count_for s l2.2 = count_for s locals.2 ∧
       (s ∈ current_state st2 ↔ s ∈ current_state st) ∧
       last_of st2 s = last_of st s.
Proof.
  intros Hwf Honce Hrun tick fire.
  destruct (seen_once_split s rest Honce) as (d & post & Hsplit & Hd & Hpost).
  pose proof (before_not_in s rest) as Hpre.
  set (pre := before s rest) in *.
  assert (Hrun' : bind (detection_loop env cfg all pre locals)
                    (detection_loop env cfg all (d :: post)) st
                  = (Returned l2, st2)).
  { rewrite <- detection_loop_app, <- Hsplit. exact Hrun. }
  (* the detections before [s] *)
  destruct (detection_loop_view all pre locals st)
    as (Hv0 & _ & Hk0 & Hwf0 & Hloc0).
  specialize (Hwf0 Hwf). destruct (Hv0 s Hpre) as (Hs0 & Hc0 & Hla0).
  subst tick. unfold bind at 1 in Hrun'.
  destruct (detection_loop env cfg all pre locals st) as [[l0|e0] st0]
    eqn:Hloop0; [|done].
  cbn [fst snd] in *. destruct (Hloc0 l0 eq_refl) as [_ Hcnt0].
  specialize (Hcnt0 s Hpre).
  (* the detection of [s] *)
  cbn [detection_loop] in Hrun'. unfold bind at 1 in Hrun'.
  pose proof (process_one_cases all d l0 st0) as Hcases.
  pose proof (process_one_wf all d l0 st0 Hwf0) as Hwf1.
  destruct (process_one_view all d l0 st0)
    as (Hstr1 & _ & _ & _ & _ & Hk1 & _ & _).
  rewrite Hd in Hcases, Hstr1. cbn zeta in Hcases.
  rewrite Hs0, (cooled_ext st st0 s _ Hla0) in Hcases.
  destruct (process_one env cfg all d l0 st0) as [[l1|e1] st1] eqn:Hone;
    [|done].
  cbn [fst snd] in *.
  (* the detections after [s] *)
  destruct (detection_loop_view all post l1 st1)
    as (Hv2 & _ & Hk2 & Hwf2 & Hloc2).
  specialize (Hwf2 Hwf1). destruct (Hv2 s Hpost) as (Hs2 & Hc2 & Hla2).
  rewrite Hrun' in Hs2, Hc2, Hla2, Hk2, Hwf2, Hloc2. cbn [fst snd] in *.
  destruct (Hloc2 l2 eq_refl) as [Hin2 Hcnt2]. specialize (Hcnt2 s Hpost).
  split_and!; [| done | lia | |].
  - apply Hin2. left.
    destruct Hcases as [(_ & [= -> _])|[(_ & _ & _ & [= -> _])|
      (_ & _ & _ & st4 & _ & _ & _ & [(e & [=] & _)|(msg & ip & [= -> _])])]];
      simpl; apply elem_of_union; right; by apply elem_of_singleton.
  - rewrite Hs2, Hstr1, decide_True by done. by rewrite Hs0.
  - destruct Hcases as [(Hq & [= -> ->])|[(Hpf & Hcs & Hcl & [= -> ->])|
      (Hpf & Hcs & Hcl & st4 & Ht & Hk4 & _ &
        [(e & [=] & _)|(msg & ip & [= -> ->])])]]; cbn [fst snd] in *.
    + assert (fire = false) as ->.
      { subst fire. apply andb_false_iff. left. apply andb_false_iff.
        destruct (decide (persistence_frames cfg ≤ streak_of st s + 1));
          [right|left; by apply bool_decide_eq_false_2].
        apply bool_decide_eq_false_2. rewrite <- Hc0. tauto. }
      rewrite Hcnt2, Hcnt0, Hc2, Hla2. split_and!; [done| |done].
      by rewrite <- Hc0.
    + assert (fire = false) as ->.
      { subst fire. rewrite Hcl. apply andb_false_r. }
      destruct (after_check_fields s st0) as (_ & Hcc & Hlc & _).
      rewrite Hcnt2, Hcnt0, Hc2, Hla2, Hcc, Hlc. split_and!; [done| |done].
      by rewrite <- Hc0.
    + assert (fire = true) as ->.
      { subst fire. rewrite Hcl, andb_true_r. apply andb_true_iff.
        split; apply bool_decide_eq_true_2; [done|]. by rewrite <- Hc0. }
      destruct (after_check_fields s st0) as (_ & _ & _ & Hkm & _).
      unfold after_message in Hk4. simpl in Hk4. rewrite Hkm in Hk4.
      rewrite Hcnt2, count_for_snoc, Hcnt0. simpl.
      rewrite decide_True by done. split_and!; [lia| |].
      * apply Hc2. simpl. apply elem_of_union. right. by apply elem_of_singleton.
      * exists (ticks st4). simpl in Hk2. split; [lia|].
        rewrite Hla2. unfold last_of. simpl. by rewrite lookup_insert_eq.
Qed.

(** A returned frame that shows [s] once: its streak grows by one, and it
    is notified exactly when the frame [fires]. *)
Lemma frame_seen_once detections st s notifications st' :
  wf st → seen_once s detections →
  process_detections env cfg detections st = (Returned notifications, st') →
  wf st' ∧ (ticks st ≤ ticks st')%nat ∧
  streak_of st' s = streak_of st s + 1 ∧
  if fires env cfg s detections st
  then count_for s notifications = 1%nat ∧
       s ∈ current_state st' ∧
       ∃ t, (ticks st ≤ t < ticks st')%nat ∧ last_of st' s = clock env t
  else count_for s notifications = 0%nat ∧
       (s ∈ current_state st' ↔ s ∈ current_state st) ∧
       last_of st' s = last_of st s.
Proof.
  intros Hwf Honce Hr.
  pose proof (process_detections_unfold detections st) as Hu.
  pose proof (process_detections_wf detections st Hwf) as Hwf'.
  rewrite Hr in Hwf'. cbn [snd] in Hwf'.
  destruct (detection_loop env cfg detections detections (∅, []) st)
    as [[l1|e] st1] eqn:Hloop; [|congruence].
  destruct Hu as (st2 & Hu & Hs & Hc & Hl & Ht & Hf).
  rewrite Hr in Hu. injection Hu as -> ->.
  destruct (loop_seen_once detections detections (∅, []) st s l1 st1
              Hwf Honce Hloop) as (Hin & Hwf1 & Hk & Hstr & Hfire).
  split_and!; [done|lia| |].
  - by rewrite (streak_of_reset st1 st2 l1.1 s Hs), decide_True.
  - assert (Hpres : s ∈ current_state st2 ↔ s ∈ current_state st1).
    { rewrite Hc. tauto. }
    assert (Hlast : last_of st2 s = last_of st1 s)
      by (unfold last_of; by rewrite Hl).
    unfold fires, gate_open, check_tick.
    destruct (_ && _ && _); rewrite Hpres, Hlast, ?Ht; exact Hfire.
Qed.

(** *** Runs of frames *)

Lemma run_frames_cons detections frames st notifications st1 :
  process_detections env cfg detections st = (Returned notifications, st1) →
  run_frames env cfg (detections :: frames) st =
    (Returned notifications :: (run_frames env cfg frames st1).1,
     (run_frames env cfg frames st1).2).
Proof. intros Hr. simpl. by rewrite Hr. Qed.

Lemma run_frames_cons_inv detections frames st outs st' :
  run_frames env cfg (detections :: frames) st = (Returned <$> outs, st') →
  ∃ out outs' st1,
    outs = out :: outs' ∧
    process_detections env cfg detections st = (Returned out, st1) ∧
    run_frames env cfg frames st1 = (Returned <$> outs', st').
Proof.
  cbn [run_frames].
  destruct (process_detections env cfg detections st) as [o st1] eqn:Hr.
  cbn [fst snd].
  destruct (run_frames env cfg frames st1) as [rs st2] eqn:Hrun.
  cbn [fst snd]. intros [= Ho ->].
  destruct outs as [|out outs']; [done|]. rewrite fmap_cons in Ho.
  injection Ho as -> ->. by exists out, outs', st1.
Qed.

Lemma run_frames_app frames1 frames2 st :
  run_frames env cfg (frames1 ++ frames2) st =
    ((run_frames env cfg frames1 st).1
       ++ (run_frames env cfg frames2 (run_frames env cfg frames1 st).2).1,
     (run_frames env cfg frames2 (run_frames env cfg frames1 st).2).2).
Proof.
  revert st. induction frames1 as [|f frames1 IH]; intros st; simpl.
  - by destruct (run_frames env cfg frames2 st).
  - by rewrite IH.
Qed.

Lemma run_frames_app_inv frames1 frames2 st outs st' :
  run_frames env cfg (frames1 ++ frames2) st = (Returned <$> outs, st') →
  ∃ outs1 outs2 st1,
    outs = outs1 ++ outs2 ∧
    run_frames env cfg frames1 st = (Returned <$> outs1, st1) ∧
    run_frames env cfg frames2 st1 = (Returned <$> outs2, st').
Proof.
  rewrite run_frames_app.
  destruct (run_frames env cfg frames1 st) as [rs1 st1] eqn:Hr1.
  cbn [fst snd].
  destruct (run_frames env cfg frames2 st1) as [rs2 st2] eqn:Hr2.
  cbn [fst snd]. intros [= Ho ->]. symmetry in Ho.
  apply fmap_app_inv in Ho as (outs1 & outs2 & -> & -> & ->).
  by exists outs1, outs2, st1.
Qed.

(** A run returns on every frame when nothing can go wrong with the
    snapshots of its frames. *)
Lemma run_frames_returns frames st :
  Forall (frame_ok env cfg) frames → wf st →
  ∃ outs st', run_frames env cfg frames st = (Returned <$> outs, st').
Proof.
  intros Hok. revert st. induction Hok as [|f frames Hf _ IH]; intros st Hwf.
  - by exists [], st.
  - destruct (process_detections_returns f st Hf) as (out & st1 & Hr);
      [apply Hwf|].
    pose proof (process_detections_wf f st Hwf) as Hwf1.
    rewrite Hr in Hwf1. destruct (IH st1 Hwf1) as (outs & st' & Hrun).
    exists (out :: outs), st'.
    rewrite (run_frames_cons _ _ _ _ _ Hr), Hrun. done.
Qed.

(** While the streak stays below the threshold nothing is notified. *)
Lemma run_below s frames st outs st' :
  wf st → s ∉ current_state st →
  Forall (seen_once s) frames →
  streak_of st s + Z.of_nat (length frames) < 1 `max` persistence_frames cfg →
  run_frames env cfg frames st = (Returned <$> outs, st') →
  Forall (λ out, count_for s out = 0%nat) outs ∧
  length outs = length frames ∧
  wf st' ∧ (s ∉ current_state st') ∧
  streak_of st' s = streak_of st s + Z.of_nat (length frames) ∧
  last_of st' s = last_of st s ∧ (ticks st ≤ ticks st')%nat.
Proof.
  revert st outs.
  induction frames as [|f frames IH]; intros st outs Hwf Hcs Hall Hlt Hrun.
  - destruct outs; [|done]. injection Hrun as <-.
    simpl. split_and!; try done. lia.
  - apply Forall_cons in Hall as [Hf Hall]. simpl in Hlt.
    apply run_frames_cons_inv in Hrun as (out & outs' & st1 & -> & Hr & Hrun).
    destruct (frame_seen_once f st s out st1 Hwf Hf Hr)
      as (Hwf1 & Hk1 & Hs1 & Hfire).
    assert (Hpos : 0 ≤ streak_of st s) by apply Hwf.
    assert (Hno : fires env cfg s f st = false).
    { unfold fires. rewrite bool_decide_eq_false_2 by lia. done. }
    rewrite Hno in Hfire. destruct Hfire as (Hc0 & Hp1 & Hl1).
    destruct (IH st1 outs') as (Hz & Hlen & Hwf' & Hcs' & Hs' & Hl' & Hk');
      [done|by rewrite Hp1|done|lia|done|].
    simpl. split_and!; [by constructor|by rewrite Hlen|done|done|lia|congruence|lia].
Qed.

(** Once the subject is marked present, further sightings are silent. *)
Lemma run_present s frames st outs st' :
  wf st → s ∈ current_state st →
  Forall (seen_once s) frames →
  run_frames env cfg frames st = (Returned <$> outs, st') →
  Forall (λ out, count_for s out = 0%nat) outs ∧
  length outs = length frames ∧ s ∈ current_state st'.
Proof.
  revert st outs. induction frames as [|f frames IH];
    intros st outs Hwf Hcs Hall Hrun.
  - destruct outs; [|done]. by injection Hrun as <-.
  - apply Forall_cons in Hall as [Hf Hall].
    apply run_frames_cons_inv in Hrun as (out & outs' & st1 & -> & Hr & Hrun).
    destruct (frame_seen_once f st s out st1 Hwf Hf Hr)
      as (Hwf1 & Hk1 & Hs1 & Hfire).
    assert (Hno : fires env cfg s f st = false).
    { unfold fires. rewrite (bool_decide_eq_false_2 (s ∉ current_state st)) by tauto.
      by rewrite andb_false_r. }
    rewrite Hno in Hfire. destruct Hfire as (Hc0 & Hp1 & Hl1).
    destruct (IH st1 outs') as (Hz & Hlen & Hcs');
      [done|by rewrite Hp1|done|done|].
    simpl. split_and!; [by constructor|by rewrite Hlen|done].
Qed.

End Tracker.

(** *** One frame, seen from one subject *)

Section Frames.
Context (env : Env) (cfg : Config).

Lemma create_notification_eq s det st :
  _create_notification env s det st =
    (Returned (message_of env s det st), set_ticks S st).
Proof. unfold message_of, _create_notification, bind, now, ret. done. Qed.

(** The loop body when the notification is due and the gate is open. *)
Lemma process_one_open detections det locals st :
  let s := subject_of det in
  persistence_frames cfg ≤ streak_of st s + 1 →
  s ∉ current_state st →
  cooled env cfg st s (ticks st) = true →
  process_one env cfg detections det locals st =
    match take_snapshot env cfg s detections (after_message s st) with
    | (Returned ip, st4) =>
        (Returned (locals.1 ∪ {[s]},
                   locals.2 ++ [mkNotification s
                                  (message_of env s det (after_check s st))
                                  ip det]),
         record_notified env s st4)
    | (Raised e, st4) => (Raised e, st4)
    end.
Proof.
  intros s Hpf Hcs Hcool.
  unfold process_one. fold (subject_of det). fold s.
  unfold detection_streak_incr. unfold bind at 1. unfold modify at 1.
  unfold bind at 1. unfold get at 1. fold (bump_streak s st).
  rewrite streak_of_bump, decide_True by done.
  destruct (Z.leb_spec (persistence_frames cfg) (streak_of st s + 1)); [|lia].
  replace (current_state (bump_streak s st)) with (current_state st) by done.
  rewrite bool_decide_eq_true_2 by done.
  unfold bind at 1. rewrite is_cooled_down_spec.
  replace (cooled env cfg (bump_streak s st) s (ticks (bump_streak s st)))
    with (cooled env cfg st s (ticks st)) by done.
  rewrite Hcool. fold (after_check s st).
  rewrite (bind_returned _ _ _ _ _
             (create_notification_eq s det (after_check s st))).
  fold (after_message s st). unfold take_snapshot.
  destruct (save_images cfg).
  - unfold bind at 1. unfold bind at 2.
    destruct (_save_snapshot env cfg s detections (after_message s st))
      as [[p|e] st4]; done.
  - done.
Qed.

Lemma take_snapshot_frame s detections st :
  same_tracking st (take_snapshot env cfg s detections st).2 ∧
  (ticks st ≤ ticks (take_snapshot env cfg s detections st).2)%nat ∧
  (∀ ip, (take_snapshot env cfg s detections st).1 = Returned ip →
         if save_images cfg then is_Some ip else ip = None).
Proof.
  unfold take_snapshot. destruct (save_images cfg).
  - destruct (save_snapshot_frame env cfg s detections st) as (Ht & Hk & _).
    unfold bind.
    destruct (_save_snapshot env cfg s detections st) as [[p|e] st4];
      simpl in *; (split_and!; [done|lia|]).
    + intros ip [= <-]. by eexists.
    + done.
  - simpl. split_and!; [apply same_tracking_refl|lia|]. by intros ip [= <-].
Qed.

(** What the loop body does for the subject of its own detection, when it
    returns: either nothing is notified and the subject's mark and
    last-notified time stay, or one notification for this detection is
    appended, the subject was unmarked and is now marked, the threshold was
    reached, the gate was open at this reading of the clock, and the new
    last-notified time is a later reading. *)
Lemma process_one_self detections det locals st l' st' :
  let s := subject_of det in
  process_one env cfg detections det locals st = (Returned l', st') →
  (l'.2 = locals.2 ∧ last_of st' s = last_of st s ∧
   (s ∈ current_state st' ↔ s ∈ current_state st)) ∨
  (∃ n, l'.2 = locals.2 ++ [n] ∧ n_subject n = s ∧ n_detection n = det ∧
        (if save_images cfg then is_Some (n_image_path n)
         else n_image_path n = None) ∧
        (s ∉ current_state st) ∧ s ∈ current_state st' ∧
        persistence_frames cfg ≤ streak_of st s + 1 ∧
        cooled env cfg st s (ticks st) = true ∧
        ∃ t, (ticks st < t < ticks st')%nat ∧ last_of st' s = clock env t).
Proof.
  intros s Hr.
  destruct (process_one_cases env cfg detections det locals st)
    as [(_ & Hq)|[(_ & _ & _ & Hq)|(Hpf & Hcs & Hcool & _)]];
    try fold s in Hq; try fold s in Hpf, Hcs, Hcool.
  - rewrite Hq in Hr. injection Hr as <- <-. left. by split_and!.
  - rewrite Hq in Hr. injection Hr as <- <-. left.
    destruct (after_check_fields s st) as (_ & Hc & Hl & _).
    split_and!; [done|apply Hl|by rewrite Hc].
  - right. rewrite (process_one_open detections det locals st Hpf Hcs Hcool) in Hr.
    fold s in Hr.
    destruct (take_snapshot_frame s detections (after_message s st))
      as (Ht & Hk & Hip).
    destruct (take_snapshot env cfg s detections (after_message s st))
      as [[ip|e] st4]; [|done].
    destruct (after_message_fields s st) as (_ & _ & _ & Hkm).
    rewrite Hkm in Hk.
    injection Hr as <- <-. simpl in *.
    eexists. split; [reflexivity|]. simpl.
    split_and!; [done|done|by apply Hip|done| |done|done|].
    + apply elem_of_union. right. by apply elem_of_singleton.
    + exists (ticks st4). split; [lia|].
      unfold last_of. simpl. by rewrite lookup_insert_eq.
Qed.

Lemma sightings_cons s d rest :
  sightings s (d :: rest) =
    if decide (subject_of d = s) then S (sightings s rest) else sightings s rest.
Proof.
  unfold sightings. rewrite filter_cons. by destruct (decide (subject_of d = s)).
Qed.

Lemma sightings_pos s detections :
  (0 < sightings s detections)%nat ↔ s ∈ subjects detections.
Proof.
  induction detections as [|d ds IH].
  - unfold sightings, subjects. simpl. rewrite elem_of_nil. lia.
  - rewrite sightings_cons. unfold subjects in *. rewrite fmap_cons, elem_of_cons.
    destruct (decide (subject_of d = s)) as [->|Hne].
    + split; [by left|lia].
    + rewrite IH. split; [by right|]. intros [?|?]; [congruence|done].
Qed.

(** What a returned pass of the loop means for one subject [x]: nothing
    about [x] was notified and its mark and last-notified time are as
    before; or exactly one notification about [x] was appended, in which
    case [x] was unmarked and is now marked, the frame shows it, its
    streak reached the threshold within the frame, the gate was open at a
    clock reading of the frame, and the last-notified time is a later
    reading of the frame. *)
Lemma detection_loop_general all rest locals st l' st' x :
  detection_loop env cfg all rest locals st = (Returned l', st') →
  (count_for x l'.2 = count_for x locals.2 ∧
   last_of st' x = last_of st x ∧
   (x ∈ current_state st' ↔ x ∈ current_state st)) ∨
  (count_for x l'.2 = S (count_for x locals.2) ∧
   (x ∉ current_state st) ∧ x ∈ current_state st' ∧
   (0 < sightings x rest)%nat ∧
   persistence_frames cfg ≤ streak_of st x + Z.of_nat (sightings x rest) ∧
   ∃ tick, (ticks st ≤ tick < ticks st')%nat ∧
           cooled env cfg st x tick = true ∧
           ∃ t, (tick < t < ticks st')%nat ∧ last_of st' x = clock env t).
Proof.
  revert locals st. induction rest as [|d rest IH]; intros locals st Hr.
  - injection Hr as <- <-. left. by split_and!.
  - cbn [detection_loop] in Hr. unfold bind in Hr.
    destruct (process_one env cfg all d locals st) as [[l1|e] st1] eqn:Hone;
      [|done].
    destruct (process_one_view env cfg all d locals st)
      as (Hstr & Hcs & _ & Hl & _ & Hk & _ & Hloc).
    rewrite Hone in Hstr, Hcs, Hl, Hk, Hloc. simpl in Hstr, Hcs, Hl, Hk, Hloc.
    destruct (detection_loop_view env cfg all rest l1 st1)
      as (_ & _ & Hk2 & _).
    rewrite Hr in Hk2. simpl in Hk2.
    specialize (IH l1 st1 Hr). rewrite sightings_cons.
    destruct (decide (subject_of d = x)) as [Heq|Hne].
    + subst x. specialize (Hstr (subject_of d)).
      rewrite decide_True in Hstr by done.
      destruct (process_one_self all d locals st l1 st1 Hone)
        as [(Hl1 & Hla & Hc)|(n & Hl1 & Hn & _ & _ & Hc0 & Hc1 & Hpf & Hcool
                               & t & Ht & Hla)].
      * destruct IH as [(Hc' & Hla' & Hm)|
                        (Hc' & Hu & Hm & Hpos & Hth & tick & Htk & Hco & t & Ht & Hlt)].
        -- left. split_and!; [congruence|congruence|]. by rewrite Hm.
        -- right. split_and!; [congruence|by rewrite <- Hc|done|lia|lia|].
           exists tick. split; [lia|]. split.
           ++ by rewrite <- (cooled_ext env cfg st st1 _ tick Hla).
           ++ exists t. split; [lia|done].
      * destruct IH as [(Hc' & Hla' & Hm)|(_ & Hu & _)]; [right|done].
        rewrite Hc', Hl1, count_for_snoc, Hn, decide_True by done.
        split_and!; [lia|done|by apply Hm|lia|lia|].
        exists (ticks st). split; [lia|]. split; [done|].
        exists t. split; [lia|]. by rewrite Hla'.
    + assert (Hne' : x ≠ subject_of d) by congruence.
      destruct (Hloc l1 eq_refl) as [_ Hcnt].
      specialize (Hcnt x Hne'). specialize (Hl x Hne'). specialize (Hcs x Hne').
      specialize (Hstr x). rewrite decide_False in Hstr by done.
      destruct IH as [(Hc' & Hla' & Hm)|
                      (Hc' & Hu & Hm & Hpos & Hth & tick & Htk & Hco & t & Ht & Hlt)].
      * left. split_and!; [congruence|congruence|]. by rewrite Hm.
      * right. split_and!; [congruence|by rewrite <- Hcs|done|lia|lia|].
        exists tick. split; [lia|]. split.
        -- by rewrite <- (cooled_ext env cfg st st1 _ tick Hl).
        -- exists t. split; [lia|done].
Qed.

Lemma detection_loop_notifications all rest locals st l' st' :
  detection_loop env cfg all rest locals st = (Returned l', st') →
  ∃ new, l'.2 = locals.2 ++ new ∧ Forall (describes cfg rest) new.
Proof.
  revert locals st. induction rest as [|d rest IH]; intros locals st Hr.
  - injection Hr as <- <-. exists []. by rewrite app_nil_r.
  - cbn [detection_loop] in Hr. unfold bind in Hr.
    destruct (process_one env cfg all d locals st) as [[l1|e] st1] eqn:Hone;
      [|done].
    destruct (IH l1 st1 Hr) as (new & Hl' & Hall).
    assert (Hweak : Forall (describes cfg (d :: rest)) new).
    { eapply Forall_impl; [exact Hall|]. intros n (? & ? & ?).
      split_and!; [by apply elem_of_cons; right|done|done]. }
    destruct (process_one_self all d locals st l1 st1 Hone)
      as [(Hl1 & _)|(n & Hl1 & Hn & Hd & Hip & _)].
    + exists new. by rewrite Hl', Hl1.
    + exists (n :: new). rewrite Hl', Hl1, <- app_assoc. split; [done|].
      constructor; [|done]. split_and!; [|congruence|done].
      rewrite Hd. apply elem_of_cons. by left.
Qed.

(** One returned frame, seen from one subject. *)
Lemma frame_general detections st notifications st' x :
  process_detections env cfg detections st = (Returned notifications, st') →
  (count_for x notifications = 0%nat ∧ last_of st' x = last_of st x) ∨
  (count_for x notifications = 1%nat ∧
   x ∈ subjects detections ∧
   (x ∉ current_state st) ∧ x ∈ current_state st' ∧
   persistence_frames cfg ≤ streak_of st x + Z.of_nat (sightings x detections) ∧
   ∃ tick, (ticks st ≤ tick < ticks st')%nat ∧
           cooled env cfg st x tick = true ∧
           ∃ t, (tick < t < ticks st')%nat ∧ last_of st' x = clock env t).
Proof.
  intros Hr.
  pose proof (process_detections_unfold env cfg detections st) as Hu.
  destruct (detection_loop env cfg detections detections (∅, []) st)
    as [[l1|e] st1] eqn:Hloop; [|congruence].
  destruct Hu as (st2 & Hu & _ & Hc & Hl & Ht & _).
  rewrite Hr in Hu. injection Hu as -> ->.
  assert (Hlast : last_of st2 x = last_of st1 x) by (unfold last_of; by rewrite Hl).
  destruct (detection_loop_view env cfg detections detections (∅, []) st)
    as (_ & _ & _ & _ & Hloc).
  rewrite Hloop in Hloc. destruct (Hloc l1 eq_refl) as [Hin _].
  destruct (detection_loop_general detections detections (∅, []) st l1 st1 x Hloop)
    as [(Hcnt & Hla & _)|(Hcnt & Hu & Hm & Hpos & Hth & tick & Htk & Hco & t & Htt & Hlt)].
  - left. split; [exact Hcnt|congruence].
  - right. apply sightings_pos in Hpos.
    split_and!; [exact Hcnt|done|done| |done|].
    + apply Hc. split; [done|]. intros [_ Hn]. apply Hn, Hin. by right.
    + exists tick. rewrite Ht. split; [done|]. split; [done|].
      exists t. split; [done|congruence].
Qed.

(** A run whose frames return no notification about [x] keeps the
    last-notified time of [x]. *)
Lemma run_silent x frames st outs st' :
  run_frames env cfg frames st = (Returned <$> outs, st') →
  Forall (λ out, count_for x out = 0%nat) outs →
  last_of st' x = last_of st x.
Proof.
  revert st outs. induction frames as [|f frames IH]; intros st outs Hrun Hz.
  - by injection Hrun as _ <-.
  - apply run_frames_cons_inv in Hrun as (out & outs' & st1 & -> & Hr & Hrun).
    apply Forall_cons in Hz as [Hz0 Hz].
    rewrite (IH st1 outs' Hrun Hz).
    destruct (frame_general f st out st1 x Hr) as [(_ & Hl)|(Hone & _)];
      [done|congruence].
Qed.

End Frames.

(** *** The fan-out *)

Lemma send_loop_spec n ps st :
  ∃ st', send_loop n ps st = (Returned tt, st') ∧
    attempts st' = attempts st ++ schedule n ps (awaited st) ∧
    stdout st' = stdout st ++ concat (output_of n <$> ps) ∧
    awaited st' = awaited st + total_took n ps ∧
    same_tracking st st' ∧ snapshots st' = snapshots st ∧ ticks st' = ticks st.
Proof.
  revert st. induction ps as [|p ps IH]; intros st; simpl.
  - exists st. rewrite !app_nil_r. split_and!; [done..|lia|done|done|done].
  - unfold bind at 1. unfold try_except, await_send, output_of.
    destruct (raised (send p (n_message n) (n_image_path n))) as [e|]; simpl;
      match goal with |- context [send_loop n ps ?s] =>
        destruct (IH s) as (st' & -> & Ha & Ho & Hw & Ht & Hs & Hk) end;
      exists st'; simpl in *;
      (split_and!; [done| | |lia|done|done|done]).
    + by rewrite Ha, <- app_assoc.
    + by rewrite Ho, <- !app_assoc.
    + by rewrite Ha, <- app_assoc.
    + by rewrite Ho, app_nil_r, <- !app_assoc.
Qed.



Lemma schedule_chain n ps t0 i a b :
  schedule n ps t0 !! i = Some a → schedule n ps t0 !! S i = Some b →
  a_started b = a_finished a.
Proof.
  revert t0 i. induction ps as [|p ps IH]; intros t0 i Ha Hb; [done|].
  destruct i as [|i]; simpl in *.
  - injection Ha as <-. destruct ps as [|q ps]; simpl in *; [done|].
    by injection Hb as <-.
  - by eapply IH.
Qed.

(** *** Snapshot retention *)


(** *** Persistence, absence and the cooldown gate *)

Lemma wf_init files : NoDup (fname <$> files) → wf (init files).
Proof.
  intros Hnd. unfold wf, init, streak_of. simpl. split_and!; [| | |done].
  - intros s []%elem_of_empty.
  - intros s. by rewrite lookup_empty.
  - intros s []%elem_of_empty.
Qed.

Lemma run_frames_wf env cfg frames st :
  wf st → wf (run_frames env cfg frames st).2.
Proof.
  revert st. induction frames as [|f frames IH]; intros st Hwf; [done|].
  cbn [run_frames snd]. by apply IH, process_detections_wf.
Qed.

Lemma check_tick_ge env cfg s detections st :
  (ticks st ≤ check_tick env cfg s detections st)%nat.
Proof.
  unfold check_tick.
  by destruct (detection_loop_view env cfg detections (before s detections)
                 (∅, []) st) as (_ & _ & Hk & _).
Qed.

(** For a cooldown that is a whole number of seconds, of at most 2^53
    microseconds, the gate compares exactly. *)
Lemma cooled_exact env cfg c st s tick :
  cooldown_seconds cfg = PyInt c → 0 ≤ c → c * 1000000 ≤ 2 ^ 53 →
  cooled env cfg st s tick = true ↔
  c * 1000000 ≤ clock env tick - last_of st s.
Proof.
  intros Hc H0 Hb. unfold cooled. rewrite Hc.
  destruct (Z.le_gt_cases (c * 1000000) (clock env tick - last_of st s))
    as [Hle|Hgt].
  - split; [done|]. intros _. apply total_seconds_ge; [|done].
    split; [done|]. lia.
  - rewrite total_seconds_lt by (done || lia). split; [done|lia].
Qed.

(** C1, as amended. Starting from streak 0, with one detection of the
    subject per frame and the cooldown elapsed, a run of
    [max 1 persistence_frames] frames none of which ends in an exception
    notifies the subject exactly once, on the last of them, and not at all
    on the frames before it; for a threshold of 1 or less the run is the
    single first frame. No frame of the run ends in an exception when
    snapshots are off, or every frame can be drawn and the store does not
    fail. *)
Theorem persistence_confirms env cfg s frames st :
  wf st →
  streak_of st s = 0 →
  Forall (seen_once s) frames →
  length frames = Z.to_nat (1 `max` persistence_frames cfg) →
  (∀ tick, (ticks st ≤ tick)%nat → cooled env cfg st s tick = true) →
  (Forall (frame_ok env cfg) frames →
   ∃ outs st', run_frames env cfg frames st = (Returned <$> outs, st')) ∧
  ∀ outs st',
    run_frames env cfg frames st = (Returned <$> outs, st') →
    ∃ early final,
      outs = early ++ [final] ∧
      length early = (length frames - 1)%nat ∧
      Forall (λ out, count_for s out = 0%nat) early ∧
      count_for s final = 1%nat ∧
      s ∈ current_state st'.
Proof.
  intros Hwf Hzero Hall Hlen Hcool.
  split; [intros Hok; by apply run_frames_returns|].
  intros outs st' Hrun.
  assert (Hcs : s ∉ current_state st).
  { intros Hin. destruct Hwf as (_ & _ & Hone & _). specialize (Hone s Hin). lia. }
  destruct (decide (frames = [])) as [->|Hne]; [simpl in Hlen; lia|].
  destruct (exists_last Hne) as (front & f & ->).
  apply Forall_app in Hall as [Hfront Hf]. apply Forall_inv in Hf.
  rewrite length_app in Hlen. simpl in Hlen.
  apply run_frames_app_inv in Hrun as (early & last & st1 & -> & Hrun1 & Hrun2).
  apply run_frames_cons_inv in Hrun2
    as (final & rest & st2 & -> & Hr & Hrun2).
  destruct rest; [|done]. injection Hrun2 as ->.
  destruct (run_below env cfg s front st early st1 Hwf Hcs Hfront)
    as (Hz & Hl1 & Hwf1 & Hcs1 & Hs1 & Hla1 & Hk1); [lia|done|].
  destruct (frame_seen_once env cfg f st1 s final st' Hwf1 Hf Hr)
    as (Hwf2 & Hk2 & Hs2 & Hfire).
  assert (Hyes : fires env cfg s f st1 = true).
  { unfold fires, gate_open. rewrite (cooled_ext env cfg st st1 s _ Hla1).
    pose proof (check_tick_ge env cfg s f st1).
    rewrite Hcool by lia.
    rewrite !bool_decide_eq_true_2; [done|done|lia]. }
  rewrite Hyes in Hfire. destruct Hfire as (Hc1 & Hp2 & _).
  exists early, final. rewrite length_app. simpl.
  split_and!; [done|lia|done|done|done].
Qed.

(** C8, as amended. A subject that the frame does not show has, after a
    frame that returns, streak 0 and is not marked present, whatever its
    streak and presence were before; the frame returns no notification
    about it. The frame returns when snapshots are off, or it can be drawn
    and the store does not fail. *)
Theorem absence_resets env cfg detections st s :
  wf st →
  s ∉ subjects detections →
  (frame_ok env cfg detections →
   ∃ notifications st',
     process_detections env cfg detections st = (Returned notifications, st')) ∧
  ∀ notifications st',
    process_detections env cfg detections st = (Returned notifications, st') →
    streak_of st' s = 0 ∧
    (s ∉ current_state st') ∧
    count_for s notifications = 0%nat.
Proof.
  intros Hwf Hs. split.
  - intros Hok. apply process_detections_returns; [done|apply Hwf].
  - intros notifications st' Hr.
    destruct (frame_absent env cfg detections st s notifications st' Hwf Hs Hr)
      as (Hstreak & Hgone & _ & Hcount).
    by split_and!.
Qed.

Lemma first_open_S l i : S <$> first_open l = Some (S i) ↔ first_open l = Some i.
Proof.
  destruct (first_open l) as [j|]; simpl; [|done].
  split; intros [= ->]; done.
Qed.

(** C10, as amended. When the streak has reached the threshold and the
    subject is not marked present, every further frame that shows it (in
    one detection) asks the cooldown gate again. Along a run of such
    frames none of which ends in an exception, the frames on which the
    gate refuses notify nothing
    and leave the subject unmarked and its last-notified time untouched,
    and the first frame on which the gate lets it through is the one, and
    the only one, that notifies it. No frame of the run ends in an
    exception when snapshots are off, or every frame can be drawn and the
    store does not fail. *)
Theorem cooldown_rechecked env cfg s frames st :
  wf st →
  s ∉ current_state st →
  persistence_frames cfg ≤ streak_of st s + 1 →
  Forall (seen_once s) frames →
  (Forall (frame_ok env cfg) frames →
   ∃ outs st', run_frames env cfg frames st = (Returned <$> outs, st')) ∧
  ∀ outs st',
    run_frames env cfg frames st = (Returned <$> outs, st') →
    length outs = length frames ∧
    (∀ i out, outs !! i = Some out →
       count_for s out =
         if decide (first_open (gates env cfg s frames st) = Some i)
         then 1%nat else 0%nat) ∧
    (first_open (gates env cfg s frames st) = None →
       (s ∉ current_state st') ∧ last_of st' s = last_of st s).
Proof.
  intros Hwf Hcs Hpf Hall.
  split; [intros Hok; by apply run_frames_returns|].
  intros outs st' Hrun. revert st outs Hwf Hcs Hpf Hall Hrun.
  induction frames as [|f frames IH]; intros st outs Hwf Hcs Hpf Hall Hrun.
  - destruct outs; [|done]. injection Hrun as <-. simpl. split_and!; done.
  - apply Forall_cons in Hall as [Hf Hall].
    apply run_frames_cons_inv in Hrun as (out & outs' & st1 & -> & Hr & Hrun).
    destruct (frame_seen_once env cfg f st s out st1 Hwf Hf Hr)
      as (Hwf1 & Hk1 & Hs1 & Hfire).
    assert (Hfi : fires env cfg s f st = gate_open env cfg s f st).
    { unfold fires. by rewrite !bool_decide_eq_true_2. }
    rewrite Hfi in Hfire. cbn [gates]. rewrite Hr. cbn [snd].
    destruct (gate_open env cfg s f st) eqn:Hgate.
    + destruct Hfire as (Hc1 & Hp1 & _).
      destruct (run_present env cfg s frames st1 outs' st' Hwf1 Hp1 Hall Hrun)
        as (Hz & Hlen & _).
      simpl. split_and!; [by rewrite Hlen| |done].
      intros [|i] o Ho; simpl in Ho.
      * injection Ho as <-. by rewrite decide_True.
      * rewrite decide_False by done.
        rewrite Forall_forall in Hz. apply Hz. by eapply list_elem_of_lookup_2.
    + destruct Hfire as (Hc0 & Hp1 & Hl1).
      destruct (IH st1 outs') as (Hlen & Hcnt & Hnone);
        [done|by rewrite Hp1|lia|done|done|].
      simpl. split_and!; [by rewrite Hlen| |].
      * intros [|i] o Ho; simpl in Ho.
        -- injection Ho as <-. rewrite decide_False; [done|].
           by destruct (first_open _).
        -- rewrite (Hcnt i o Ho).
           destruct (decide (first_open (gates env cfg s frames st1) = Some i))
             as [He|He].
           ++ rewrite decide_True; [done|]. by apply first_open_S.
           ++ rewrite decide_False; [done|]. by rewrite first_open_S.
      * intros Hn. destruct (first_open (gates env cfg s frames st1)); [done|].
        destruct (Hnone eq_refl) as [? ?]. split; [done|congruence].
Qed.

(** C3, as amended. The cooldown check answers whether the time since the
    subject's last notification, as the double [total_seconds()] makes of
    it, is at least [cooldown_seconds]; for a subject never notified that
    time is counted from [datetime.min], a finite date. When
    [cooldown_seconds] is a whole number of seconds of at most 2^53
    microseconds the answer is true exactly when the time itself is at
    least [cooldown_seconds], and then two confirmed presence events of
    the subject, on frames that return and show it once, the first of
    which passes the check and between which nothing about the subject is
    notified, yield one notification (the first) when the check of the
    second comes less than [cooldown_seconds] after the time recorded for
    the first, and two when it comes at least [cooldown_seconds] after
    it. *)
Theorem cooldown_gate env cfg s st :
  (∃ st1,
     _is_cooled_down env cfg s st =
       (Returned (float_ge (total_seconds (clock env (ticks st) - last_of st s))
                    (cooldown_seconds cfg)), st1) ∧
     last_of st1 s = last_of st s) ∧
  (last_notification st !! s = None → last_of st s = datetime_min) ∧
  ∀ c, cooldown_seconds cfg = PyInt c → 0 ≤ c → c * 1000000 ≤ 2 ^ 53 →
    (float_ge (total_seconds (clock env (ticks st) - last_of st s))
       (cooldown_seconds cfg) = true ↔
     c * 1000000 ≤ clock env (ticks st) - last_of st s) ∧
    ∀ first out1 st1 between outs st2 second out2 st3,
      wf st →
      seen_once s first →
      persistence_frames cfg ≤ streak_of st s + 1 →
      s ∉ current_state st →
      c * 1000000 ≤ clock env (check_tick env cfg s first st) - last_of st s →
      process_detections env cfg first st = (Returned out1, st1) →
      run_frames env cfg between st1 = (Returned <$> outs, st2) →
      Forall (λ out, count_for s out = 0%nat) outs →
      seen_once s second →
      persistence_frames cfg ≤ streak_of st2 s + 1 →
      s ∉ current_state st2 →
      process_detections env cfg second st2 = (Returned out2, st3) →
      let separation :=
        clock env (check_tick env cfg s second st2) - last_of st1 s in
      count_for s out1 = 1%nat ∧
      (∃ t, (ticks st ≤ t < ticks st1)%nat ∧ last_of st1 s = clock env t) ∧
      (separation < c * 1000000 → count_for s out2 = 0%nat) ∧
      (c * 1000000 ≤ separation → count_for s out2 = 1%nat).
Proof.
  split_and!.
  - rewrite is_cooled_down_spec. eexists. split; [reflexivity|].
    by rewrite last_of_touch.
  - unfold last_of. by intros ->.
  - intros c Hc H0 Hb. split; [by apply (cooled_exact env cfg c st s (ticks st))|].
    intros first out1 st1 between outs st2 second out2 st3
      Hwf Hf1 Hpf1 Hcs1 Hopen Hr1 Hrun Hsilent Hf2 Hpf2 Hcs2 Hr2 separation.
    destruct (frame_seen_once env cfg first st s out1 st1 Hwf Hf1 Hr1)
      as (Hwf1 & _ & _ & Hfire1).
    assert (Hyes : fires env cfg s first st = true).
    { unfold fires, gate_open. rewrite !bool_decide_eq_true_2 by done.
      by apply (cooled_exact env cfg c). }
    rewrite Hyes in Hfire1. destruct Hfire1 as (Hone & _ & Hrec).
    assert (Hwf2 : wf st2).
    { pose proof (run_frames_wf env cfg between st1 Hwf1) as Hw.
      by rewrite Hrun in Hw. }
    pose proof (run_silent env cfg s between st1 outs st2 Hrun Hsilent) as Hlast.
    destruct (frame_seen_once env cfg second st2 s out2 st3 Hwf2 Hf2 Hr2)
      as (_ & _ & _ & Hfire2).
    unfold fires, gate_open in Hfire2.
    rewrite !bool_decide_eq_true_2 in Hfire2 by done. cbn [andb] in Hfire2.
    pose proof (cooled_exact env cfg c st2 s
                  (check_tick env cfg s second st2) Hc H0 Hb) as Hex.
    rewrite Hlast in Hex. fold separation in Hex.
    split_and!; [done|done| |].
    + intros Hlt. destruct (cooled env cfg st2 s _).
      * assert (c * 1000000 ≤ separation) by by apply Hex. lia.
      * by destruct Hfire2.
    + intros Hle. apply Hex in Hle. rewrite Hle in Hfire2. by destruct Hfire2.
Qed.

(** *** Message composition *)

(** C9, as amended. Composing the message always returns, and the message
    is an icon and a space followed by the template
    ["{Subject} detected! ({confidence}% confident) at {time}"] with the
    subject capitalized and the confidence as a percentage: the icon is the
    subject's own for miso, ozzy and person, and the generic one for every
    other subject. *)
Theorem message_composed env subject det st :
  _create_notification env subject det st =
    (Returned
       (icon_of subject +:+ " " +:+
        generic_template subject (format_percent env (confidence det))
          (strftime env "%I:%M %p" (clock env (ticks st)))),
     set_ticks S st).
Proof.
  unfold _create_notification, bind, now, ret, icon_of, generic_template.
  simpl.
  destruct (String.eqb_spec subject "miso") as [->|_]; [done|].
  destruct (String.eqb_spec subject "ozzy") as [->|_]; [done|].
  destruct (String.eqb_spec subject "person") as [->|_]; done.
Qed.

(** *** Storage failures *)

Lemma writes_after_message s st : writes (after_message s st) = writes st.
Proof.
  unfold after_message, after_check, touch_last. simpl.
  by destruct (_ !! _).
Qed.

Lemma elem_of_retained cfg listing f : f ∈ retained cfg listing → f ∈ listing.
Proof.
  unfold retained, remove_files. by intros [_ ?]%list_elem_of_filter.
Qed.

(** C5, as amended. Nothing in the snapshot path looks at a storage
    failure. When [cv2.imwrite] fails, which it reports by returning
    [False], nothing is raised and the notification is returned, but with
    the path of the image that was not written: no file was added to the
    directory. When the cleanup pass is over the bound and its oldest file
    has already been removed by somebody else, [unlink] raises
    [FileNotFoundError] and the pass ends with it; and an exception of the
    cleanup pass leaves [_save_snapshot], and with it
    [process_detections], as it is. *)
Theorem storage_errors_propagate env cfg :
  (∀ det st,
     let s := subject_of det in
     let filename := snapshot_filename env s (after_message s st) in
     let path := joinpath env (image_dir cfg) filename in
     save_images cfg = true →
     storage_reliable env cfg →
     drawable env [det] →
     NoDup (fname <$> snapshots st) →
     persistence_frames cfg ≤ streak_of st s + 1 →
     s ∉ current_state st →
     cooled env cfg st s (ticks st) = true →
     imwrite env (writes st) path = NotWritten →
     ∃ st', process_detections env cfg [det] st
              = (Returned [mkNotification s
                             (message_of env s det (after_check s st))
                             (Some path) det], st') ∧
            ∀ f, f ∈ snapshots st' → f ∈ snapshots st) ∧
  (∀ st oldest images,
     save_images cfg = true →
     sorted_by_ctime (snapshots st) = oldest :: images →
     max_images cfg < Z.of_nat (length (snapshots st)) →
     fname oldest ∈ vanished env (cleanups st) →
     ∃ st', _cleanup_old_images env cfg st
              = (Raised (FileNotFoundError
                           (joinpath env (image_dir cfg) (fname oldest))), st')) ∧
  (∀ subject detections st e,
     drawable env detections →
     (∀ msg, imwrite env (writes st)
               (joinpath env (image_dir cfg)
                  (snapshot_filename env subject st)) ≠ WriteRaises msg) →
     (_cleanup_old_images env cfg (after_write env cfg subject st)).1
       = Raised e →
     (_save_snapshot env cfg subject detections st).1 = Raised e) ∧
  (∀ det rest st e,
     let s := subject_of det in
     save_images cfg = true →
     persistence_frames cfg ≤ streak_of st s + 1 →
     s ∉ current_state st →
     cooled env cfg st s (ticks st) = true →
     (_save_snapshot env cfg s (det :: rest) (after_message s st)).1
       = Raised e →
     (process_detections env cfg (det :: rest) st).1 = Raised e).
Proof.
  split_and!.
  - intros det st s filename path Hsave Hrel Hdraw Hnd Hpf Hcs Hcool Hw.
    pose proof (process_detections_unfold env cfg [det] st) as Hu.
    cbn [detection_loop] in Hu.
    pose proof (process_one_open env cfg [det] det (∅, []) st Hpf Hcs Hcool)
      as Hone.
    cbn zeta in Hone. fold s in Hone. unfold take_snapshot in Hone.
    rewrite Hsave in Hone.
    rewrite (bind_returned _ _ _ _ _
               (save_snapshot_ok env cfg s [det] (after_message s st)
                  Hsave Hrel Hdraw
                  ltac:(by rewrite snapshots_after_message))) in Hone.
    fold filename in Hone. fold path in Hone. unfold ret in Hone.
    rewrite (bind_returned _ _ _ _ _ Hone) in Hu. unfold ret in Hu.
    destruct Hu as (st' & Hr & _ & _ & _ & _ & Hf).
    exists st'. split; [exact Hr|].
    intros f. rewrite Hf. cbn [record_notified set_current set_last set_ticks
      set_cleanups set_snapshots snapshots].
    intros Hin%elem_of_retained. revert Hin.
    unfold after_write, cv2_imwrite. cbn [set_ticks writes].
    rewrite writes_after_message. fold filename. fold path. rewrite Hw.
    cbn [snd]. unfold set_writes, set_ticks. cbn [snapshots].
    by rewrite snapshots_after_message.
  - intros st oldest images Hsave Hsorted Hmax Hgone.
    unfold _cleanup_old_images. rewrite Hsave. simpl.
    unfold bind at 1. unfold get at 1. unfold bind at 1. unfold modify at 1.
    rewrite Hsorted. cbn [cleanup_loop].
    assert (Hlen : length (oldest :: images) = length (snapshots st)).
    { rewrite <- Hsorted. apply Permutation_length, sorted_by_ctime_perm. }
    rewrite Hlen.
    destruct (Z.ltb_spec (max_images cfg) (Z.of_nat (length (snapshots st))));
      [|lia].
    unfold bind, unlink. simpl.
    rewrite bool_decide_eq_false_2; [by eexists|].
    intros (f & Hf & Hin)%list_elem_of_fmap.
    apply list_elem_of_filter in Hin as [Hnot _]. apply Hnot. by rewrite <- Hf.
  - intros subject detections st e (Hcopy & Himp & Hdraw) Hw Hclean.
    rewrite save_snapshot_unfold. unfold copy_frame. rewrite Hcopy.
    unfold import_camera. rewrite Himp.
    unfold ret at 1. rewrite (draw_loop_ok env detections st Hdraw).
    unfold after_write in Hclean. unfold bind at 1.
    destruct (cv2_imwrite env cfg (snapshot_filename env subject st)
                (set_ticks S st)) as [[b|e'] st1] eqn:Hwrite.
    + cbn [snd] in Hclean. unfold bind.
      destruct (_cleanup_old_images env cfg st1) as [[[]|e''] st2];
        cbn [fst] in *; [done|by injection Hclean as ->].
    + exfalso. unfold cv2_imwrite in Hwrite. cbn [set_ticks writes] in Hwrite.
      pose proof Hw as Hw'.
      destruct (imwrite env (writes st) _) as [?| |msg]; try done.
      by apply (Hw' msg).
  - intros det rest st e s Hsave Hpf Hcs Hcool Hsnap.
    pose proof (process_detections_unfold env cfg (det :: rest) st) as Hu.
    cbn [detection_loop] in Hu.
    pose proof (process_one_open env cfg (det :: rest) det (∅, []) st
                  Hpf Hcs Hcool) as Hone.
    cbn zeta in Hone. fold s in Hone. unfold take_snapshot in Hone.
    rewrite Hsave in Hone. unfold bind at 1 in Hone.
    destruct (_save_snapshot env cfg s (det :: rest) (after_message s st))
      as [[p|e'] st4]; cbn [fst] in Hsnap; [done|].
    injection Hsnap as ->.
    rewrite (bind_raised _ _ _ _ _ Hone) in Hu. by rewrite Hu.
Qed.

(** *** Delivery *)






(** C7, as amended. The sends of one notification are awaited one after
    another in the order of the platform list: each starts when the one
    before it has finished, no timeout is applied, and the call lasts the
    sum of the platforms' send times. *)
Theorem sends_are_sequential cfg n st :
  ∃ st',
    send_notification cfg n st = (Returned tt, st') ∧
    attempts st' = attempts st ++ schedule n (platforms cfg) (awaited st) ∧
    (∀ i a b, schedule n (platforms cfg) (awaited st) !! i = Some a →
              schedule n (platforms cfg) (awaited st) !! S i = Some b →
              a_started b = a_finished a) ∧
    awaited st' - awaited st = total_took n (platforms cfg).
Proof.
  unfold send_notification.
  destruct (send_loop_spec n (platforms cfg) st)
    as (st' & Hr & Ha & _ & Hw & _).
  exists st'. split_and!; [done|done| |lia].
  intros i a b. apply schedule_chain.
Qed.

(** *** Streaks *)

(** The loop adds one to the streak for every detection of the subject,
    also when several detections of one frame bear it. *)
Lemma detection_loop_streak env cfg detections rest locals st s :
  let r := detection_loop env cfg detections rest locals st in
  let seen := Z.of_nat (length (filter (λ d, subject_of d = s) rest)) in
  streak_of r.2 s ≤ streak_of st s + seen ∧
  (∀ l', r.1 = Returned l' → streak_of r.2 s = streak_of st s + seen).
Proof.
  revert locals st. induction rest as [|d rest IH]; intros locals st.
  - simpl. split; [lia|]. intros _ _. lia.
  - cbn [detection_loop]. rewrite filter_cons.
    destruct (process_one_view env cfg detections d locals st) as (Hstr & _).
    unfold bind.
    destruct (process_one env cfg detections d locals st) as [[l1|e] st1];
      simpl in Hstr.
    + destruct (IH l1 st1) as (IH1 & IH2). simpl in IH1, IH2.
      rewrite Hstr in IH1, IH2.
      destruct (decide (subject_of d = s)) as [->|Hne].
      * simpl length.
        split; [lia|]. intros l' Hl'. rewrite (IH2 l' Hl'). lia.
      * split; [lia|]. intros l' Hl'. by rewrite (IH2 l' Hl').
    + simpl. rewrite Hstr. split; [|done].
      destruct (decide (subject_of d = s)) as [->|Hne]; simpl length; lia.
Qed.

(** C2. One frame with two detections of the same subject, fed to a fresh
    manager, leaves that subject's streak at 2 although a single frame has
    been processed: the streak counts detections, not frames. *)
Theorem streak_counts_detections :
  let r := process_detections demo_env default_config
             [sighting "Person"; sighting "Person"] (init []) in
  r.1 = Returned [] ∧ streak_of r.2 "person" = 2.
Proof. vm_compute. done. Qed.

(** * Instances *)

Lemma demo_storage_reliable cfg :
  0 ≤ max_images cfg → storage_reliable demo_env cfg.
Proof. intros Hmax. split_and!; done. Qed.

Lemma boxed_sighting l : boxed (sighting l).
Proof. by eexists _, _. Qed.

Lemma drawable_intro env detections :
  (∀ n, frame_copy env n = None) →
  camera_import env = None →
  (∀ bx l conf col, cv2_draw env bx l conf col = None) →
  Forall boxed detections → drawable env detections.
Proof.
  intros Hcopy Himp Hdraw Hall. split_and!; [done|done|].
  eapply Forall_impl; [exact Hall|].
  intros det (bx & col & ? & ? & ?). by exists bx, col.
Qed.

Lemma demo_drawable detections :
  Forall boxed detections → drawable demo_env detections.
Proof. by apply drawable_intro. Qed.

Lemma demo_frame_ok cfg detections :
  0 ≤ max_images cfg →
  Forall boxed detections →
  frame_ok demo_env cfg detections.
Proof.
  intros Hmax Hall. right.
  split; [by apply demo_storage_reliable|by apply demo_drawable].
Qed.

Lemma sighting_frame_ok cfg l :
  0 ≤ max_images cfg → frame_ok demo_env cfg [sighting l].
Proof.
  intros Hmax. apply demo_frame_ok; [done|].
  apply Forall_singleton, boxed_sighting.
Qed.

Lemma five_sightings_ok :
  Forall (frame_ok demo_env default_config) (replicate 5 [sighting "Miso"]).
Proof. apply Forall_replicate, sighting_frame_ok. discriminate. Qed.

Lemma persistence_confirms_witness :
  ∃ outs st',
    run_frames demo_env default_config (replicate 5 [sighting "Miso"]) (init [])
      = (Returned <$> outs, st') ∧
    ∃ early final,
      outs = early ++ [final] ∧
      length early = 4%nat ∧
      Forall (λ out, count_for "miso" out = 0%nat) early ∧
      count_for "miso" final = 1%nat ∧
      "miso" ∈ current_state st'.
Proof.
  destruct (persistence_confirms demo_env default_config "miso"
              (replicate 5 [sighting "Miso"]) (init [])) as [Hreturns Hright].
  - apply wf_init. constructor.
  - reflexivity.
  - repeat constructor.
  - reflexivity.
  - intros tick _. apply (cooled_exact demo_env default_config 300).
    + reflexivity.
    + discriminate.
    + discriminate.
    + change (last_of (init []) "miso") with 0.
      change (clock demo_env tick) with (demo_clock tick).
      unfold demo_clock. lia.
  - destruct (Hreturns five_sightings_ok) as (outs & st' & Hr).
    exists outs, st'. split; [exact Hr|]. exact (Hright outs st' Hr).
Defined.


Lemma absence_resets_witness :
  ∃ notifications st',
    process_detections demo_env default_config []
      (process_detections demo_env default_config [sighting "Miso"] (init [])).2
      = (Returned notifications, st') ∧
    streak_of st' "miso" = 0 ∧
    ("miso" ∉ current_state st') ∧
    count_for "miso" notifications = 0%nat.
Proof.
  destruct (absence_resets demo_env default_config []
              (process_detections demo_env default_config [sighting "Miso"]
                 (init [])).2 "miso") as [Hreturns Hright].
  - apply process_detections_wf, wf_init. constructor.
  - apply not_elem_of_nil.
  - destruct Hreturns as (notifications & st' & Hr).
    + apply demo_frame_ok; [discriminate|constructor].
    + exists notifications, st'. split; [exact Hr|].
      exact (Hright notifications st' Hr).
Defined.

Lemma seen_then_gone_wf : wf seen_then_gone.
Proof.
  unfold seen_then_gone.
  apply process_detections_wf, process_detections_wf, wf_init. constructor.
Qed.

Lemma seen_then_gone_view :
  ("miso" ∉ current_state seen_then_gone) ∧ streak_of seen_then_gone "miso" = 0.
Proof.
  destruct (process_detections_returns demo_env short_cooldown []
              (process_detections demo_env short_cooldown [sighting "Miso"]
                 (init [])).2) as (out & st' & Hr).
  - by left.
  - apply process_detections_wf, wf_init. constructor.
  - destruct (frame_absent demo_env short_cooldown []
                (process_detections demo_env short_cooldown [sighting "Miso"]
                   (init [])).2 "miso" out st')
      as (Hs & Hc & _); [|apply not_elem_of_nil|exact Hr|].
    + apply process_detections_wf, wf_init. constructor.
    + unfold seen_then_gone. rewrite Hr. by split.
Qed.

Lemma four_sightings_ok :
  Forall (frame_ok demo_env short_cooldown) (replicate 4 [sighting "Miso"]).
Proof. repeat constructor; by left. Qed.

Lemma cooldown_rechecked_witness :
  let frames := replicate 4 [sighting "Miso"] in
  ∃ outs st',
    run_frames demo_env short_cooldown frames seen_then_gone
      = (Returned <$> outs, st') ∧
    length outs = length frames ∧
    (∀ i out, outs !! i = Some out →
       count_for "miso" out =
         if decide (first_open (gates demo_env short_cooldown "miso" frames
                                  seen_then_gone) = Some i)
         then 1%nat else 0%nat) ∧
    (first_open (gates demo_env short_cooldown "miso" frames seen_then_gone)
       = None →
       ("miso" ∉ current_state st') ∧
       last_of st' "miso" = last_of seen_then_gone "miso").
Proof.
  intros frames.
  destruct (cooldown_rechecked demo_env short_cooldown "miso" frames
              seen_then_gone) as [Hreturns Hright].
  - exact seen_then_gone_wf.
  - apply seen_then_gone_view.
  - destruct seen_then_gone_view as [_ ->]. discriminate.
  - repeat constructor.
  - destruct (Hreturns four_sightings_ok) as (outs & st' & Hr).
    exists outs, st'. split; [exact Hr|]. exact (Hright outs st' Hr).
Defined.

(** Two sightings of Miso with a sighting of Ozzy in between. *)
Lemma miso_ozzy_miso :
  ∃ out1 st1 outs st2 out2 st3,
    process_detections demo_env short_cooldown [sighting "Miso"] (init [])
      = (Returned out1, st1) ∧
    run_frames demo_env short_cooldown [[sighting "Ozzy"]] st1
      = (Returned <$> outs, st2) ∧
    process_detections demo_env short_cooldown [sighting "Miso"] st2
      = (Returned out2, st3) ∧
    wf st2 ∧
    Forall (λ out, count_for "miso" out = 0%nat) outs ∧
    streak_of st2 "miso" = 0 ∧ ("miso" ∉ current_state st2).
Proof.
  pose proof (wf_init [] NoDup_nil_2) as Hwf0.
  destruct (process_detections_returns demo_env short_cooldown
              [sighting "Miso"] (init [])) as (out1 & st1 & Hr1);
    [by left|constructor|].
  pose proof (process_detections_wf demo_env short_cooldown
                [sighting "Miso"] _ Hwf0) as Hwf1.
  rewrite Hr1 in Hwf1. cbn [snd] in Hwf1.
  destruct (process_detections_returns demo_env short_cooldown
              [sighting "Ozzy"] st1) as (out & st2 & Hr);
    [by left|apply Hwf1|].
  pose proof (process_detections_wf demo_env short_cooldown
                [sighting "Ozzy"] _ Hwf1) as Hwf2.
  rewrite Hr in Hwf2. cbn [snd] in Hwf2.
  destruct (process_detections_returns demo_env short_cooldown
              [sighting "Miso"] st2) as (out2 & st3 & Hr2);
    [by left|apply Hwf2|].
  destruct (frame_absent demo_env short_cooldown [sighting "Ozzy"] st1 "miso"
              out st2 Hwf1) as (Hs & Hc & _ & Hz); [|exact Hr|].
  { unfold subjects. intros [Heq|[]%elem_of_nil]%elem_of_cons. discriminate Heq. }
  exists out1, st1, [out], st2, out2, st3.
  split_and!; [exact Hr1| |exact Hr2|exact Hwf2|by constructor|exact Hs|exact Hc].
  cbn [run_frames]. rewrite Hr. reflexivity.
Qed.

Lemma cooldown_gate_witness :
  ∃ out1 st1 outs st2 out2 st3,
    process_detections demo_env short_cooldown [sighting "Miso"] (init [])
      = (Returned out1, st1) ∧
    run_frames demo_env short_cooldown [[sighting "Ozzy"]] st1
      = (Returned <$> outs, st2) ∧
    process_detections demo_env short_cooldown [sighting "Miso"] st2
      = (Returned out2, st3) ∧
    let separation :=
      clock demo_env
        (check_tick demo_env short_cooldown "miso" [sighting "Miso"] st2)
      - last_of st1 "miso" in
    count_for "miso" out1 = 1%nat ∧
    (∃ t, (ticks (init []) ≤ t < ticks st1)%nat ∧
          last_of st1 "miso" = clock demo_env t) ∧
    (separation < 3 * 1000000 → count_for "miso" out2 = 0%nat) ∧
    (3 * 1000000 ≤ separation → count_for "miso" out2 = 1%nat).
Proof.
  destruct miso_ozzy_miso
    as (out1 & st1 & outs & st2 & out2 & st3 & Hr1 & Hrun & Hr2 & Hwf2 & Hz
        & Hs & Hc).
  exists out1, st1, outs, st2, out2, st3.
  split; [exact Hr1|]. split; [exact Hrun|]. split; [exact Hr2|].
  refine (proj2 (proj2 (proj2 (cooldown_gate demo_env short_cooldown "miso"
                                 (init []))) 3 eq_refl _ _)
            [sighting "Miso"] out1 st1 [[sighting "Ozzy"]] outs st2
            [sighting "Miso"] out2 st3 _ _ _ _ _ Hr1 Hrun Hz _ _ Hc Hr2).
  - discriminate.
  - discriminate.
  - apply wf_init. constructor.
  - reflexivity.
  - discriminate.
  - apply not_elem_of_empty.
  - discriminate.
  - reflexivity.
  - rewrite Hs. discriminate.
Defined.

Lemma storage_errors_propagate_witness :
  (∃ st', process_detections silent_failure_env (with_threshold 1)
            [sighting "Miso"] (init [])
          = (Returned
               [mkNotification "miso"
                  (message_of silent_failure_env "miso" (sighting "Miso")
                     (after_check "miso" (init [])))
                  (Some (joinpath silent_failure_env
                           (image_dir (with_threshold 1))
                           (snapshot_filename silent_failure_env "miso"
                              (after_message "miso" (init [])))))
                  (sighting "Miso")], st') ∧
          ∀ f, f ∈ snapshots st' → f ∈ snapshots (init [])) ∧
  (∃ st', _cleanup_old_images racing_env one_image
            (init [mkFile "old.jpg" 1; mkFile "new.jpg" 2])
          = (Raised (FileNotFoundError
                       (joinpath racing_env (image_dir one_image)
                          (fname (mkFile "old.jpg" 1)))), st')).
Proof.
  split.
  - apply (proj1 (storage_errors_propagate silent_failure_env (with_threshold 1))
             (sighting "Miso") (init [])).
    + reflexivity.
    + split_and!; [intros; discriminate|reflexivity|discriminate].
    + apply drawable_intro;
        [intros; reflexivity..|apply Forall_singleton, boxed_sighting].
    + constructor.
    + discriminate.
    + apply not_elem_of_empty.
    + apply (cooled_exact silent_failure_env (with_threshold 1) 300).
      * reflexivity.
      * discriminate.
      * discriminate.
      * discriminate.
    + reflexivity.
  - apply (proj1 (proj2 (storage_errors_propagate racing_env one_image))
             (init [mkFile "old.jpg" 1; mkFile "new.jpg" 2])
             (mkFile "old.jpg" 1) [mkFile "new.jpg" 2]).
    + reflexivity.
    + reflexivity.
    + reflexivity.
    + change ("old.jpg" ∈ ["old.jpg"]). constructor.
Defined.

(** * Where the code departs from the specification's words *)

(** C1: five frames that each show Miso once, to a fresh manager with the
    default settings; the detections have the keys the docstring asks for
    and no ['box']. The fifth frame, on which the notification is due,
    ends in the [KeyError] of the drawing loop instead of returning it.
    Likewise, with detections as the camera makes them, a threshold of 1
    and room for one snapshot, the first sighting ends in
    [FileNotFoundError] when somebody else removes the old snapshot during
    the cleanup pass. *)
Lemma confirmation_lost :
  (run_frames demo_env default_config (replicate 5 [bare_sighting "Miso"])
     (init [])).1
  = [Returned []; Returned []; Returned []; Returned [];
     Raised (KeyError "box")] ∧
  (run_frames racing_env one_image [[sighting "Miso"]]
     (init [mkFile "old.jpg" 1])).1
  = [Raised (FileNotFoundError "snapshots/old.jpg")].
Proof. vm_compute. done. Qed.

(** C8: Ozzy is seen and notified; the next frame shows only Miso, and
    while its snapshot is cleaned up the oldest file has been removed by
    somebody else. The frame ends in [FileNotFoundError] before the reset
    loop is reached, so Ozzy, absent from it, keeps the streak 1 and stays
    marked present. The same happens, with [KeyError], when Miso's
    detection has no ['box']. *)
Lemma reset_skipped :
  (let st1 := (process_detections second_pass_env two_images
                 [sighting "Ozzy"] (init [mkFile "old.jpg" 1])).2 in
   let r := process_detections second_pass_env two_images
              [sighting "Miso"] st1 in
   ("ozzy" ∉ subjects [sighting "Miso"]) ∧
   r.1 = Raised (FileNotFoundError "snapshots/old.jpg") ∧
   streak_of r.2 "ozzy" = 1 ∧
   "ozzy" ∈ current_state r.2) ∧
  (let st1 := (process_detections demo_env (with_threshold 1)
                 [sighting "Ozzy"] (init [])).2 in
   let r := process_detections demo_env (with_threshold 1)
              [bare_sighting "Miso"] st1 in
   ("ozzy" ∉ subjects [bare_sighting "Miso"]) ∧
   r.1 = Raised (KeyError "box") ∧
   streak_of r.2 "ozzy" = 1 ∧
   "ozzy" ∈ current_state r.2).
Proof.
  split; split_and!.
  - apply (bool_decide_unpack _). vm_compute. exact I.
  - vm_compute. reflexivity.
  - vm_compute. reflexivity.
  - apply (bool_decide_unpack _). vm_compute. exact I.
  - apply (bool_decide_unpack _). vm_compute. exact I.
  - vm_compute. reflexivity.
  - vm_compute. reflexivity.
  - apply (bool_decide_unpack _). vm_compute. exact I.
Qed.

(** C10: Miso was notified, left, and is back within the cooldown of three
    seconds. The gate refuses on the first two frames and lets Miso
    through on the third, but that frame ends in [FileNotFoundError]
    because somebody else removed the oldest snapshot during the cleanup
    pass: the notification comes one frame later. With detections that
    have no ['box'] the third and every later frame end in [KeyError] and
    no frame notifies. *)
Lemma expired_cooldown_not_notified :
  (let st := (run_frames second_pass_env two_images
                [[sighting "Miso"]; []] (init [mkFile "old.jpg" 1])).2 in
   let frames := replicate 4 [sighting "Miso"] in
   gates second_pass_env two_images "miso" frames st
     = [false; false; true; true] ∧
   (run_frames second_pass_env two_images frames st).1 !! 2%nat
     = Some (Raised (FileNotFoundError "snapshots/old.jpg")) ∧
   notified <$> (run_frames second_pass_env two_images frames st).1
     = [Some []; Some []; None; Some ["miso"]]) ∧
  (let st := (run_frames demo_env snapshots_short_cooldown
                [[sighting "Miso"]; []] (init [])).2 in
   let frames := replicate 4 [bare_sighting "Miso"] in
   gates demo_env snapshots_short_cooldown "miso" frames st
     = [false; false; true; true] ∧
   (run_frames demo_env snapshots_short_cooldown frames st).1
     = [Returned []; Returned [];
        Raised (KeyError "box"); Raised (KeyError "box")]).
Proof. vm_compute. done. Qed.

(** C3: with a cooldown longer than the time since [datetime.min], the
    gate refuses a subject that was never notified: its first confirmed
    sighting notifies nothing, and neither does a second one after it was
    away. With a cooldown of 63900000000 seconds the gate lets a subject
    through one microsecond early, because the double nearest to
    63899999999.999999 is 63900000000. And of two sightings five seconds
    apart, with a cooldown of three, the second is not notified when its
    detection has no ['box'] for the snapshot. *)
Lemma gate_refuses_first_and_rounds :
  (_is_cooled_down demo_env long_cooldown "miso" (init [])).1 = Returned false ∧
  (process_detections demo_env long_cooldown [sighting "Miso"] (init [])).1
    = Returned [] ∧
  (run_frames demo_env long_cooldown [[sighting "Miso"]; []; [sighting "Miso"]]
     (init [])).1 = [Returned []; Returned []; Returned []] ∧
  (_is_cooled_down late_env rounded_cooldown "miso" (init [])).1
    = Returned true ∧
  clock late_env (ticks (init [])) - last_of (init []) "miso"
    < 63900000000 * 1000000 ∧
  notified <$> (run_frames demo_env snapshots_short_cooldown
                  [[sighting "Miso"]; [sighting "Ozzy"]; [bare_sighting "Miso"]]
                  (init [])).1
    = [Some ["miso"]; Some ["ozzy"]; None].
Proof. vm_compute. done. Qed.

(** C5: when [cv2.imwrite] returns [False] the notification comes back
    with an image path although the directory is still empty; and a file
    removed by somebody else during cleanup ends [process_detections] with
    the exception instead of a notification. *)
Lemma storage_failures_not_recovered :
  let r := process_detections silent_failure_env (with_threshold 1)
             [sighting "Miso"] (init []) in
  r.1 = Returned [mkNotification "miso"
                    (icon_cat +:+ " Miso detected! (75% confident) at now")
                    (Some "snapshots/miso_now.jpg") (sighting "Miso")] ∧
  snapshots r.2 = [] ∧
  (process_detections racing_env one_image [sighting "Miso"]
     (init [mkFile "old.jpg" 1])).1
    = Raised (FileNotFoundError "snapshots/old.jpg").
Proof. vm_compute. done. Qed.

(** C7: two platforms that each answer within a timeout of 5 keep the
    call waiting for 10, and the second send starts when the first has
    finished. *)
Lemma dispatch_outlasts_slowest :
  let st' := (send_notification two_platforms hello (init [])).2 in
  Forall (λ p, took (send p (n_message hello) (n_image_path hello)) ≤ 5)
    (platforms two_platforms) ∧
  slowest hello (platforms two_platforms) = 5 ∧
  ¬ (awaited st' - awaited (init []) ≤ 5) ∧
  (a_started <$> attempts st') = [0; 5] ∧
  (a_finished <$> attempts st') = [5; 10].
Proof.
  vm_compute. split_and!; [|done| |done|done].
  - repeat constructor; discriminate.
  - intros H. by apply H.
Qed.

(** C9: the message for an unrecognized subject is not the bare template:
    it starts with the generic icon. *)
Lemma generic_message_has_icon :
  (_create_notification demo_env "dog" (sighting "Dog") (init [])).1
    ≠ Returned (generic_template "dog"
                  (format_percent demo_env (confidence (sighting "Dog")))
                  (strftime demo_env "%I:%M %p" (clock demo_env 0%nat))).
Proof. vm_compute. discriminate. Qed.

(** * Further properties of the tracker *)

Section TrackerMore.
Context (env : Env) (cfg : Config).

(** X1. A returned frame holds at most one notification per subject, however
    many of its detections bear that subject. *)
Theorem one_notification_per_subject detections st notifications st' s :
  process_detections env cfg detections st = (Returned notifications, st') →
  (count_for s notifications ≤ 1)%nat.
Proof.
  intros Hr.
  destruct (frame_general env cfg detections st notifications st' s Hr)
    as [(-> & _)|(-> & _)]; lia.
Qed.

(** X2. A frame notifies a subject only when it is due: the frame shows the
    subject, the subject was not marked present, its streak reaches the
    threshold within the frame, and at one of the clock readings of the
    frame the cooldown comparison
    [total_seconds() >= cooldown_seconds] held for the time since its last
    notification; the subject is marked present afterwards. *)
Theorem notified_only_when_due detections st notifications st' s :
  process_detections env cfg detections st = (Returned notifications, st') →
  count_for s notifications ≠ 0%nat →
  s ∈ subjects detections ∧
  (s ∉ current_state st) ∧ s ∈ current_state st' ∧
  persistence_frames cfg ≤ streak_of st s + Z.of_nat (sightings s detections) ∧
  ∃ tick, (ticks st ≤ tick < ticks st')%nat ∧
          float_ge (total_seconds (clock env tick - last_of st s))
            (cooldown_seconds cfg) = true.
Proof.
  intros Hr Hcnt.
  destruct (frame_general env cfg detections st notifications st' s Hr)
    as [(Hz & _)|(_ & Hin & Hu & Hm & Hth & tick & Htk & Hco & _)]; [done|].
  split_and!; [done..|]. exists tick. split; [done|]. exact Hco.
Qed.

(** X3. The last-notified time of a subject changes exactly when a frame
    notifies it: it is kept by a frame that returns no notification about
    the subject, and set to a clock reading made during the frame by one
    that does. *)
Theorem last_notified_tracks_notifications detections st notifications st' s :
  process_detections env cfg detections st = (Returned notifications, st') →
  (count_for s notifications = 0%nat → last_of st' s = last_of st s) ∧
  (count_for s notifications ≠ 0%nat →
   ∃ t, (ticks st < t < ticks st')%nat ∧ last_of st' s = clock env t).
Proof.
  intros Hr.
  destruct (frame_general env cfg detections st notifications st' s Hr)
    as [(Hz & Hl)|(Hone & _ & _ & _ & _ & tick & Htk & _ & t & Ht & Hl)].
  - split; [done|]. by rewrite Hz.
  - split; [by rewrite Hone|]. intros _. exists t. split; [lia|done].
Qed.

(** X4. After a returned frame the streak of a subject the frame shows has
    grown by the number of detections bearing it, and the streak of every
    other subject is 0. *)
Theorem streak_after_frame detections st notifications st' s :
  process_detections env cfg detections st = (Returned notifications, st') →
  streak_of st' s =
    if decide (s ∈ subjects detections)
    then streak_of st s + Z.of_nat (sightings s detections)
    else 0.
Proof.
  intros Hr.
  pose proof (process_detections_unfold env cfg detections st) as Hu.
  destruct (detection_loop_streak env cfg detections detections (∅, []) st s)
    as (_ & Hstr).
  destruct (detection_loop_view env cfg detections detections (∅, []) st)
    as (_ & _ & _ & _ & Hloc).
  destruct (detection_loop env cfg detections detections (∅, []) st)
    as [[l1|e] st1] eqn:Hloop; [|congruence].
  destruct Hu as (st2 & Hu & Hs & _).
  rewrite Hr in Hu. injection Hu as -> ->.
  destruct (Hloc l1 eq_refl) as [Hin _]. simpl in Hstr.
  rewrite (streak_of_reset st1 st2 l1.1 s Hs).
  destruct (decide (s ∈ subjects detections)) as [Hyes|Hno].
  - rewrite decide_True by (apply Hin; by right). exact (Hstr l1 eq_refl).
  - rewrite decide_False; [done|]. rewrite Hin. intros [[]%elem_of_empty|?]. done.
Qed.

(** X5. The tracking fields stay well formed through every frame, also one
    that ends in an exception: a subject marked present has a streak entry
    of at least 1 and no streak is negative. After a returned frame every
    subject marked present is one the frame shows. *)
Theorem tracking_invariant detections st :
  wf st →
  wf (process_detections env cfg detections st).2 ∧
  ∀ notifications st',
    process_detections env cfg detections st = (Returned notifications, st') →
    ∀ s, s ∈ current_state st' → s ∈ subjects detections.
Proof.
  intros Hwf. split; [by apply process_detections_wf|].
  intros notifications st' Hr s Hs.
  destruct (decide (s ∈ subjects detections)) as [|Hno]; [done|].
  by destruct (frame_absent env cfg detections st s notifications st' Hwf Hno Hr)
    as (_ & ? & _).
Qed.

(** X6. Every notification a frame returns is about one of the frame's
    detections: its subject is that detection's lower-cased label, and it
    carries an image path exactly when [save_images] is set. *)
Theorem notifications_describe_detections detections st notifications st' :
  process_detections env cfg detections st = (Returned notifications, st') →
  Forall (describes cfg detections) notifications.
Proof.
  intros Hr.
  pose proof (process_detections_unfold env cfg detections st) as Hu.
  destruct (detection_loop env cfg detections detections (∅, []) st)
    as [[l1|e] st1] eqn:Hloop; [|congruence].
  destruct Hu as (st2 & Hu & _). rewrite Hr in Hu. injection Hu as -> ->.
  destruct (detection_loop_notifications env cfg detections detections (∅, [])
              st l1 st1 Hloop)
    as (new & Hnew & Hall).
  simpl in Hnew. by rewrite Hnew.
Qed.

(** X7. A frame without detections returns no notification, reads no
    clock, and, from a well-formed state, leaves every streak at 0 and
    nobody marked present; last-notified times and snapshots are kept. *)
Theorem empty_frame st :
  wf st →
  ∃ st', process_detections env cfg [] st = (Returned [], st') ∧
         (∀ s, streak_of st' s = 0) ∧
         current_state st' = ∅ ∧
         last_notification st' = last_notification st ∧
         ticks st' = ticks st ∧
         snapshots st' = snapshots st.
Proof.
  intros (Hdom & _).
  pose proof (process_detections_unfold env cfg [] st) as Hu. simpl in Hu.
  destruct Hu as (st' & Hr & Hs & Hc & Hl & Ht & Hf).
  exists st'. split_and!; [done| |  |done..].
  - intros s. rewrite (streak_of_reset st st' ∅ s Hs).
    rewrite decide_False; [done|]. apply not_elem_of_empty.
  - apply set_eq. intros s. rewrite Hc. split; [|by intros []%elem_of_empty].
    intros [Hin Hn]. exfalso. apply Hn. split; [by apply Hdom|].
    apply not_elem_of_empty.
Qed.

End TrackerMore.

(** Instances: a fresh manager that confirms on the first sighting is shown
    two people in one frame. *)
Lemma two_people_returns :
  ∃ notifications st',
    process_detections demo_env (with_threshold 1)
      [sighting "Person"; sighting "Person"] (init [])
    = (Returned notifications, st').
Proof.
  apply process_detections_returns.
  - apply demo_frame_ok; [discriminate|].
    apply Forall_cons. split; [apply boxed_sighting|].
    apply Forall_singleton, boxed_sighting.
  - constructor.
Qed.

Lemma two_people_notified notifications st' :
  process_detections demo_env (with_threshold 1)
    [sighting "Person"; sighting "Person"] (init [])
  = (Returned notifications, st') →
  count_for "person" notifications = 1%nat.
Proof.
  intros Hr.
  assert (Hc : count_for "person"
                 (match (process_detections demo_env (with_threshold 1)
                           [sighting "Person"; sighting "Person"] (init [])).1
                  with Returned l => l | Raised _ => [] end) = 1%nat)
    by (vm_compute; reflexivity).
  rewrite Hr in Hc. exact Hc.
Qed.

Lemma one_notification_per_subject_witness :
  ∃ notifications st',
    process_detections demo_env (with_threshold 1)
      [sighting "Person"; sighting "Person"] (init [])
    = (Returned notifications, st') ∧
    (count_for "person" notifications ≤ 1)%nat.
Proof.
  destruct two_people_returns as (notifications & st' & Hr).
  exists notifications, st'. split; [exact Hr|].
  exact (one_notification_per_subject demo_env (with_threshold 1) _ _ _ _
           "person" Hr).
Defined.

Lemma notified_only_when_due_witness :
  ∃ notifications st',
    process_detections demo_env (with_threshold 1)
      [sighting "Person"; sighting "Person"] (init [])
    = (Returned notifications, st') ∧
    "person" ∈ current_state st'.
Proof.
  destruct two_people_returns as (notifications & st' & Hr).
  exists notifications, st'. split; [exact Hr|].
  refine (proj1 (proj2 (proj2 (notified_only_when_due demo_env (with_threshold 1)
                                  _ _ _ _ "person" Hr _)))).
  rewrite (two_people_notified _ _ Hr). discriminate.
Defined.

Lemma last_notified_tracks_notifications_witness :
  ∃ notifications st' t,
    process_detections demo_env (with_threshold 1)
      [sighting "Person"; sighting "Person"] (init [])
    = (Returned notifications, st') ∧
    last_of st' "person" = clock demo_env t.
Proof.
  destruct two_people_returns as (notifications & st' & Hr).
  destruct (last_notified_tracks_notifications demo_env (with_threshold 1)
              _ _ _ _ "person" Hr) as [_ Hset].
  destruct Hset as (t & _ & Ht).
  - rewrite (two_people_notified _ _ Hr). discriminate.
  - exists notifications, st', t. split; [exact Hr|exact Ht].
Defined.

Lemma streak_after_frame_witness :
  ∃ notifications st',
    process_detections demo_env (with_threshold 1)
      [sighting "Person"; sighting "Person"] (init [])
    = (Returned notifications, st') ∧
    streak_of st' "person" =
      if decide ("person" ∈ subjects [sighting "Person"; sighting "Person"])
      then streak_of (init []) "person"
           + Z.of_nat (sightings "person" [sighting "Person"; sighting "Person"])
      else 0.
Proof.
  destruct two_people_returns as (notifications & st' & Hr).
  exists notifications, st'. split; [exact Hr|].
  exact (streak_after_frame demo_env (with_threshold 1) _ _ _ _ "person" Hr).
Defined.

Lemma tracking_invariant_witness :
  wf (process_detections demo_env (with_threshold 1)
        [sighting "Person"; sighting "Person"] (init [])).2.
Proof.
  refine (proj1 (tracking_invariant demo_env (with_threshold 1)
                   [sighting "Person"; sighting "Person"] (init []) _)).
  apply wf_init. constructor.
Defined.

Lemma notifications_describe_detections_witness :
  ∃ notifications st',
    process_detections demo_env (with_threshold 1)
      [sighting "Person"; sighting "Person"] (init [])
    = (Returned notifications, st') ∧
    Forall (describes (with_threshold 1)
              [sighting "Person"; sighting "Person"]) notifications.
Proof.
  destruct two_people_returns as (notifications & st' & Hr).
  exists notifications, st'. split; [exact Hr|].
  exact (notifications_describe_detections demo_env (with_threshold 1)
           _ _ _ _ Hr).
Defined.

Lemma empty_frame_witness :
  ∃ st', process_detections demo_env default_config [] (init [])
           = (Returned [], st') ∧
         (∀ s, streak_of st' s = 0) ∧
         current_state st' = ∅ ∧
         last_notification st' = last_notification (init []) ∧
         ticks st' = ticks (init []) ∧
         snapshots st' = snapshots (init []).
Proof.
  apply (empty_frame demo_env default_config (init [])).
  apply wf_init. constructor.
Defined.

(** * Further properties of the snapshot store *)

Section StorageMore.
Context (env : Env) (cfg : Config).

Lemma remove_files_all nms l :
  (∀ f, f ∈ l → fname f ∈ nms) → remove_files nms l = [].
Proof.
  unfold remove_files. induction l as [|f l IH]; intros Hall; [done|].
  rewrite filter_cons_False.
  - apply IH. intros g Hg. apply Hall. by apply elem_of_cons; right.
  - intros Hnot. apply Hnot, Hall. by apply elem_of_cons; left.
Qed.

Lemma retained_within_bound listing :
  Z.of_nat (length listing) ≤ max_images cfg → retained cfg listing = listing.
Proof.
  intros Hle. unfold retained.
  replace (length listing - Z.to_nat (max_images cfg))%nat with 0%nat by lia.
  rewrite take_0. apply remove_files_nil.
Qed.

(** With a negative bound the loop never stops on its own: it deletes
    every listed file and then pops from the empty list. *)
Lemma cleanup_loop_negative images st :
  max_images cfg < 0 →
  NoDup (fname <$> images) →
  (∀ f, f ∈ images → fname f ∈ fname <$> snapshots st) →
  cleanup_loop env cfg images st =
    (Raised (IndexError "pop from empty list"),
     set_snapshots (remove_files (fname <$> images)) st).
Proof.
  intros Hneg. revert st. induction images as [|f images IH]; intros st Hnd Hin.
  - simpl. destruct (Z.ltb_spec (max_images cfg) (Z.of_nat 0)); [|lia].
    unfold raise. f_equal. destruct st. unfold set_snapshots. simpl.
    by rewrite remove_files_nil.
  - cbn [cleanup_loop].
    destruct (Z.ltb_spec (max_images cfg) (Z.of_nat (length (f :: images))));
      [|lia].
    apply NoDup_cons in Hnd as [Hnin Hnd].
    assert (Hf : fname f ∈ fname <$> snapshots st)
      by (apply Hin; apply elem_of_cons; by left).
    erewrite bind_returned; last first.
    { unfold unlink. by rewrite bool_decide_eq_true_2. }
    rewrite IH; [|done|].
    + f_equal. destruct st. unfold set_snapshots. simpl. f_equal.
      apply remove_file_files.
    + intros g Hg. simpl. apply elem_of_names_remove_file. split.
      * intros Heq. apply Hnin. rewrite <- Heq. by apply list_elem_of_fmap_2.
      * apply Hin. apply elem_of_cons. by right.
Qed.

(** X8. With [max_images] negative and nobody else touching the directory,
    a cleanup pass deletes every snapshot and then ends with [IndexError]
    ([pop] from the empty list). *)
Theorem negative_bound_empties_directory st :
  save_images cfg = true →
  max_images cfg < 0 →
  vanished env (cleanups st) = [] →
  NoDup (fname <$> snapshots st) →
  ∃ st', _cleanup_old_images env cfg st
           = (Raised (IndexError "pop from empty list"), st') ∧
         snapshots st' = [].
Proof.
  intros Hsave Hneg Hvan Hnd.
  unfold _cleanup_old_images. rewrite Hsave. simpl.
  unfold bind, get, modify.
  rewrite cleanup_loop_negative; [|done| |].
  - eexists. split; [reflexivity|]. simpl. rewrite Hvan, remove_files_nil.
    apply remove_files_all. intros f Hf. apply list_elem_of_fmap_2.
    by rewrite (sorted_by_ctime_perm (snapshots st)).
  - by rewrite (sorted_by_ctime_perm (snapshots st)).
  - intros f Hf. simpl. rewrite Hvan, remove_files_nil.
    apply list_elem_of_fmap_2. by rewrite <- (sorted_by_ctime_perm (snapshots st)).
Qed.

(** X9. A cleanup pass deletes nothing while the directory holds no more
    than [max_images] snapshots. *)
Theorem cleanup_within_bound st :
  save_images cfg = true →
  storage_reliable env cfg →
  NoDup (fname <$> snapshots st) →
  Z.of_nat (length (snapshots st)) ≤ max_images cfg →
  ∃ st', _cleanup_old_images env cfg st = (Returned tt, st') ∧
         snapshots st' = snapshots st.
Proof.
  intros Hsave Hrel Hnd Hle.
  rewrite (cleanup_old_images_ok env cfg st Hsave Hrel Hnd).
  eexists. split; [reflexivity|]. simpl. by apply retained_within_bound.
Qed.

(** X10. Cleanup is idempotent: a second pass right after a first one
    returns and leaves the directory as the first pass left it. *)
Theorem cleanup_idempotent st :
  save_images cfg = true →
  storage_reliable env cfg →
  NoDup (fname <$> snapshots st) →
  ∃ st1 st2,
    _cleanup_old_images env cfg st = (Returned tt, st1) ∧
    _cleanup_old_images env cfg st1 = (Returned tt, st2) ∧
    snapshots st2 = snapshots st1.
Proof.
  intros Hsave Hrel Hnd.
  pose proof (cleanup_old_images_ok env cfg st Hsave Hrel Hnd) as H1.
  destruct (cleanup_old_images_frame env cfg st) as (_ & _ & Hn).
  rewrite H1 in Hn. specialize (Hn Hnd). cbn [snd] in Hn.
  eexists _, _. split; [exact H1|].
  rewrite (cleanup_old_images_ok env cfg _ Hsave Hrel Hn).
  split; [reflexivity|]. simpl. apply retained_within_bound.
  pose proof (retained_length cfg (snapshots st) Hnd).
  destruct Hrel as (_ & _ & ?). lia.
Qed.

(** X11. The result of [cv2.imwrite] is not looked at: when it reports
    failure by returning [False], [_save_snapshot] still returns the path
    it chose, although no file was added to the directory. *)
Theorem failed_write_still_returns_path subject detections st :
  save_images cfg = true →
  storage_reliable env cfg →
  drawable env detections →
  NoDup (fname <$> snapshots st) →
  imwrite env (writes st)
    (joinpath env (image_dir cfg) (snapshot_filename env subject st))
    = NotWritten →
  ∃ st', _save_snapshot env cfg subject detections st
           = (Returned (joinpath env (image_dir cfg)
                          (snapshot_filename env subject st)), st') ∧
         ∀ f, f ∈ snapshots st' → f ∈ snapshots st.
Proof.
  intros Hsave Hrel Hdraw Hnd Hw.
  rewrite (save_snapshot_ok env cfg subject detections st Hsave Hrel Hdraw Hnd).
  eexists. split; [reflexivity|]. simpl.
  unfold after_write, cv2_imwrite. simpl. rewrite Hw. simpl.
  intros f. apply elem_of_retained.
Qed.

(** X12. Snapshot names have a resolution of one second: saving again under
    a name the directory already holds overwrites that file, so within
    the bound the set of file names is the same after the save. *)
Theorem same_name_overwrites subject detections st c nm :
  save_images cfg = true →
  storage_reliable env cfg →
  drawable env detections →
  NoDup (fname <$> snapshots st) →
  Z.of_nat (length (snapshots st)) ≤ max_images cfg →
  dir_entry env (image_dir cfg) (snapshot_filename env subject st) = Some nm →
  imwrite env (writes st)
    (joinpath env (image_dir cfg) (snapshot_filename env subject st))
    = Written c →
  nm ∈ fname <$> snapshots st →
  ∃ path st', _save_snapshot env cfg subject detections st
                = (Returned path, st') ∧
              fname <$> snapshots st' = fname <$> snapshots st ∧
              mkFile nm c ∈ snapshots st'.
Proof.
  intros Hsave Hrel Hdraw Hnd Hle Hentry Hw Hold.
  rewrite (save_snapshot_ok env cfg subject detections st Hsave Hrel Hdraw Hnd).
  eexists _, _. split; [reflexivity|]. simpl.
  unfold after_write, cv2_imwrite. simpl. rewrite Hw, Hentry. simpl.
  assert (Hnames : fname <$> write_file nm c (snapshots st)
                   = fname <$> snapshots st) by (by apply names_write_file).
  rewrite retained_within_bound.
  - split; [exact Hnames|].
    unfold write_file. rewrite bool_decide_eq_true_2 by done.
    apply list_elem_of_fmap in Hold as (f & Hf & Hin).
    apply list_elem_of_fmap. exists f. split; [|done].
    rewrite <- Hf. by rewrite String.eqb_refl.
  - rewrite <- (length_fmap fname), Hnames, length_fmap. done.
Qed.

End StorageMore.

Lemma two_files_nodup : NoDup (fname <$> two_files).
Proof. apply (bool_decide_unpack _). vm_compute. exact I. Qed.

Lemma plain_storage_reliable cfg :
  0 ≤ max_images cfg → storage_reliable plain_env cfg.
Proof. intros Hmax. split_and!; [intros; discriminate|reflexivity|exact Hmax]. Qed.

Lemma negative_bound_empties_directory_witness :
  ∃ st', _cleanup_old_images plain_env negative_bound (init two_files)
           = (Raised (IndexError "pop from empty list"), st') ∧
         snapshots st' = [].
Proof.
  apply (negative_bound_empties_directory plain_env negative_bound
           (init two_files)).
  - reflexivity.
  - reflexivity.
  - reflexivity.
  - exact two_files_nodup.
Defined.

Lemma cleanup_within_bound_witness :
  ∃ st', _cleanup_old_images plain_env default_config (init two_files)
           = (Returned tt, st') ∧
         snapshots st' = snapshots (init two_files).
Proof.
  apply (cleanup_within_bound plain_env default_config (init two_files)).
  - reflexivity.
  - apply plain_storage_reliable. discriminate.
  - exact two_files_nodup.
  - discriminate.
Defined.

Lemma cleanup_idempotent_witness :
  ∃ st1 st2,
    _cleanup_old_images plain_env one_image (init two_files)
      = (Returned tt, st1) ∧
    _cleanup_old_images plain_env one_image st1 = (Returned tt, st2) ∧
    snapshots st2 = snapshots st1.
Proof.
  apply (cleanup_idempotent plain_env one_image (init two_files)).
  - reflexivity.
  - apply plain_storage_reliable. discriminate.
  - exact two_files_nodup.
Defined.

Lemma failed_write_still_returns_path_witness :
  ∃ st', _save_snapshot silent_failure_env default_config "miso"
           [sighting "Miso"] (init [])
           = (Returned (joinpath silent_failure_env (image_dir default_config)
                          (snapshot_filename silent_failure_env "miso"
                             (init []))), st') ∧
         ∀ f, f ∈ snapshots st' → f ∈ snapshots (init []).
Proof.
  apply (failed_write_still_returns_path silent_failure_env default_config
           "miso" [sighting "Miso"] (init [])).
  - reflexivity.
  - split_and!; [intros; discriminate|reflexivity|discriminate].
  - apply drawable_intro;
      [intros; reflexivity..|apply Forall_singleton, boxed_sighting].
  - constructor.
  - reflexivity.
Defined.

Lemma same_name_overwrites_witness :
  ∃ path st',
    _save_snapshot plain_env default_config "miso" [sighting "Miso"]
      (init [mkFile "miso_now.jpg" 1]) = (Returned path, st') ∧
    fname <$> snapshots st' = fname <$> snapshots (init [mkFile "miso_now.jpg" 1]) ∧
    mkFile "miso_now.jpg" (demo_clock 0) ∈ snapshots st'.
Proof.
  apply (same_name_overwrites plain_env default_config "miso" [sighting "Miso"]
           (init [mkFile "miso_now.jpg" 1]) (demo_clock 0) "miso_now.jpg").
  - reflexivity.
  - apply plain_storage_reliable. discriminate.
  - apply drawable_intro;
      [intros; reflexivity..|apply Forall_singleton, boxed_sighting].
  - apply NoDup_singleton.
  - discriminate.
  - reflexivity.
  - reflexivity.
  - change ("miso_now.jpg" ∈ ["miso_now.jpg"]). constructor.
Defined.

(** * Statistics *)

Section Stats.
Context (env : Env) (cfg : Config).

Lemma detection_loop_below all rest locals st :
  (∀ s, s ∈ subjects rest →
        streak_of st s + Z.of_nat (sightings s rest) < persistence_frames cfg) →
  ∃ l' st', detection_loop env cfg all rest locals st = (Returned l', st') ∧
            l'.2 = locals.2 ∧
            last_notification st' = last_notification st ∧
            current_state st' = current_state st ∧
            ticks st' = ticks st ∧ snapshots st' = snapshots st.
Proof.
  revert locals st. induction rest as [|d rest IH]; intros locals st Hlow.
  - by exists locals, st.
  - cbn [detection_loop].
    assert (Hd : streak_of st (subject_of d) + 1 ≤
                 streak_of st (subject_of d)
                   + Z.of_nat (sightings (subject_of d) (d :: rest))).
    { rewrite sightings_cons, decide_True by done. lia. }
    assert (Hlt := Hlow (subject_of d)).
    destruct (process_one_cases env cfg all d locals st)
      as [(_ & Hq)|[(Hpf & _)|(Hpf & _)]]; cycle 1.
    { exfalso. unfold subjects in Hlt. rewrite fmap_cons in Hlt.
      specialize (Hlt (list_elem_of_here _ _)). lia. }
    { exfalso. unfold subjects in Hlt. rewrite fmap_cons in Hlt.
      specialize (Hlt (list_elem_of_here _ _)). lia. }
    erewrite bind_returned by exact Hq.
    destruct (IH (locals.1 ∪ {[subject_of d]}, locals.2)
                 (bump_streak (subject_of d) st))
      as (l' & st' & Hr & H2 & Hl & Hc & Hk & Hf).
    + intros s Hs. rewrite streak_of_bump.
      assert (Hs' : s ∈ subjects (d :: rest))
        by (unfold subjects in *; rewrite fmap_cons; by apply elem_of_cons; right).
      specialize (Hlow s Hs'). rewrite sightings_cons in Hlow.
      destruct (decide (subject_of d = s)) as [->|Hne]; lia.
    + exists l', st'. by split_and!.
Qed.

(** X13. A returned frame in which no subject reaches the threshold notifies
    nothing and leaves the last-notified table as it is, so the statistics
    count and list the same subjects as before: a subject seen for fewer
    than [persistence_frames] detections is not counted as seen. *)
Theorem unconfirmed_subjects_not_counted detections st :
  (∀ s, s ∈ subjects detections →
        streak_of st s + Z.of_nat (sightings s detections)
          < persistence_frames cfg) →
  ∃ st', process_detections env cfg detections st = (Returned [], st') ∧
         total_subjects_seen (get_stats env cfg st')
           = total_subjects_seen (get_stats env cfg st) ∧
         last_notifications (get_stats env cfg st')
           = last_notifications (get_stats env cfg st).
Proof.
  intros Hlow.
  destruct (detection_loop_below detections detections (∅, []) st Hlow)
    as (l' & st1 & Hloop & H2 & Hl & _).
  pose proof (process_detections_unfold env cfg detections st) as Hu.
  rewrite Hloop in Hu. destruct Hu as (st' & Hr & _ & _ & Hl' & _).
  exists st'. rewrite Hr, H2. unfold get_stats. simpl.
  rewrite Hl', Hl. done.
Qed.

End Stats.

Lemma unconfirmed_subjects_not_counted_witness :
  ∃ st', process_detections demo_env default_config
           [sighting "Miso"; sighting "Miso"] (init []) = (Returned [], st') ∧
         total_subjects_seen (get_stats demo_env default_config st')
           = total_subjects_seen (get_stats demo_env default_config (init [])) ∧
         last_notifications (get_stats demo_env default_config st')
           = last_notifications (get_stats demo_env default_config (init [])).
Proof.
  apply (unconfirmed_subjects_not_counted demo_env default_config
           [sighting "Miso"; sighting "Miso"] (init [])).
  intros s Hs.
  change (streak_of (init []) s) with (default 0 ((∅ : gmap string Z) !! s)).
  rewrite lookup_empty. cbn [default].
  assert (sightings s [sighting "Miso"; sighting "Miso"] ≤ 2)%nat
    by apply (length_filter _ [sighting "Miso"; sighting "Miso"]).
  change (persistence_frames default_config) with 5. lia.
Defined.

(** * Labels and subjects *)

Lemma lower_char_upper_char c : lower_char (upper_char c) = lower_char c.
Proof. destruct c as [[] [] [] [] [] [] [] []]; reflexivity. Qed.

Lemma upper_char_lower_char c : upper_char (lower_char c) = upper_char c.
Proof. destruct c as [[] [] [] [] [] [] [] []]; reflexivity. Qed.

Lemma lower_char_idemp c : lower_char (lower_char c) = lower_char c.
Proof. destruct c as [[] [] [] [] [] [] [] []]; reflexivity. Qed.

Lemma lower_idemp s : lower (lower s) = lower s.
Proof.
  induction s as [|c s IH]; simpl; [done|]. by rewrite lower_char_idemp, IH.
Qed.

Lemma lower_capitalize s : lower (capitalize s) = lower s.
Proof.
  destruct s as [|c s]; simpl; [done|].
  by rewrite lower_char_upper_char, lower_idemp.
Qed.

Lemma capitalize_lower s : capitalize (lower s) = capitalize s.
Proof.
  destruct s as [|c s]; simpl; [done|].
  by rewrite upper_char_lower_char, lower_idemp.
Qed.

(** X14. For an ASCII class name: the camera labels a cat box with the
    capitalized class name and the manager keys it by the lower-cased
    label; the key is the lower-cased class name whatever the case of the
    class name, and capitalizing the key, as the generic message does,
    gives back the label the camera drew. *)
Theorem label_round_trip class_name conf bx col :
  isascii class_name = true →
  let d := mkDetection (capitalize class_name) conf bx col "pet" in
  subject_of d = lower class_name ∧
  capitalize (subject_of d) = label d ∧
  subject_of (mkDetection (subject_of d) conf bx col "pet") = subject_of d.
Proof.
  intros _. unfold subject_of. simpl.
  rewrite lower_capitalize, capitalize_lower, lower_idemp. done.
Qed.

(** * The camera *)

Lemma get_color_keeps label cam k c :
  colors cam !! k = Some c →
  colors (_get_color_for_label label cam).2 !! k = Some c.
Proof.
  intros Hk. unfold _get_color_for_label.
  destruct (colors cam !! lower label) eqn:Hl; simpl; [done|].
  rewrite lookup_insert_ne; [done|]. intros <-. congruence.
Qed.

Lemma get_color_assigned label cam :
  colors (_get_color_for_label label cam).2 !! lower label
    = Some (_get_color_for_label label cam).1.
Proof.
  unfold _get_color_for_label.
  destruct (colors cam !! lower label) eqn:Hl; simpl; [done|].
  apply lookup_insert_eq.
Qed.

Lemma colors_for_keeps labels cam k c :
  colors cam !! k = Some c → colors (colors_for labels cam).2 !! k = Some c.
Proof.
  revert cam. induction labels as [|l labels IH]; intros cam Hk; simpl; [done|].
  by apply IH, get_color_keeps.
Qed.

(** X15. A colour, once given, stays: after a label was given its colour,
    and whatever other labels were asked for in between, asking for a
    label that differs from it at most in letter case returns the same
    colour and changes nothing. *)
Theorem color_is_stable label1 label2 others cam :
  lower label1 = lower label2 →
  let r1 := _get_color_for_label label1 cam in
  let cam2 := (colors_for others r1.2).2 in
  _get_color_for_label label2 cam2 = (r1.1, cam2).
Proof.
  intros Heq r1 cam2.
  assert (Hk : colors cam2 !! lower label2 = Some r1.1).
  { subst cam2. apply colors_for_keeps. rewrite <- Heq. apply get_color_assigned. }
  unfold _get_color_for_label at 1. by rewrite Hk.
Qed.

Lemma get_color_new label cam :
  colors cam !! lower label = None →
  _get_color_for_label label cam =
    (nth (pet_color_index cam `mod` 6) default_pet_colors (0, 0, 0),
     mkCamera (<[lower label :=
                   nth (pet_color_index cam `mod` 6) default_pet_colors (0, 0, 0)]>
                 (colors cam))
       (S (pet_color_index cam)) (frame_counter cam) (skip_frames cam)
       (last_detections cam)).
Proof. intros Hl. unfold _get_color_for_label. by rewrite Hl. Qed.

(** X16. New labels take the default colours in turn and the palette wraps
    around after its six entries: the i-th of a run of labels that are new
    and pairwise different (case aside) gets entry
    [(pet_color_index + i) mod 6], so the seventh new pet has the colour of
    the first. *)
Theorem palette_cycles labels cam i l :
  NoDup (lower <$> labels) →
  (∀ l', l' ∈ labels → colors cam !! lower l' = None) →
  labels !! i = Some l →
  (colors_for labels cam).1 !! i =
    Some (nth ((pet_color_index cam + i) `mod` 6) default_pet_colors (0, 0, 0)).
Proof.
  revert cam i. induction labels as [|l0 labels IH]; intros cam i Hnd Hnew Hi;
    [done|].
  rewrite fmap_cons in Hnd. apply NoDup_cons in Hnd as [Hnin Hnd].
  assert (H0 : colors cam !! lower l0 = None)
    by (apply Hnew, elem_of_cons; by left).
  cbn [colors_for fst snd]. rewrite (get_color_new l0 cam H0). cbn [fst snd].
  destruct i as [|i].
  - rewrite Nat.add_0_r. reflexivity.
  - change (labels !! i = Some l) in Hi.
    match goal with |- (_ :: ?rest) !! S i = _ => change (rest !! i = Some
      (nth ((pet_color_index cam + S i) `mod` 6) default_pet_colors (0, 0, 0)))
    end.
    rewrite (IH _ i Hnd); [| |exact Hi].
    + cbn [pet_color_index]. do 3 f_equal. lia.
    + intros l' Hl'. cbn [colors]. rewrite lookup_insert_ne.
      * apply Hnew, elem_of_cons. by right.
      * intros Heq. apply Hnin. rewrite Heq. by apply list_elem_of_fmap_2.
Qed.

(** X17. With [skip_frames] positive, [_detect] does not look at a frame
    unless the frame counter reaches a multiple of [skip_frames + 1]: the
    calls before that return the cached detections and change nothing but
    the counter. *)
Theorem skipped_frames_repeat {Frame} (models : Detectors Frame)
    (frames : list Frame) cam :
  0 < skip_frames cam →
  frame_counter cam `mod` (skip_frames cam + 1) + Z.of_nat (length frames)
    ≤ skip_frames cam →
  detect_all models frames cam =
    Some (replicate (length frames) (last_detections cam),
          mkCamera (colors cam) (pet_color_index cam)
            (frame_counter cam + Z.of_nat (length frames))
            (skip_frames cam) (last_detections cam)).
Proof.
  revert cam. induction frames as [|f frames IH]; intros cam Hskip Hroom.
  - simpl. destruct cam. simpl. do 3 f_equal. lia.
  - cbn [detect_all length] in *.
    assert (Hmod : (frame_counter cam + 1) `mod` (skip_frames cam + 1)
                   = frame_counter cam `mod` (skip_frames cam + 1) + 1).
    { pose proof (Z.mod_pos_bound (frame_counter cam) (skip_frames cam + 1)).
      rewrite <- (Z.mod_small (frame_counter cam `mod` (skip_frames cam + 1) + 1)
                    (skip_frames cam + 1)) by lia.
      rewrite <- Zplus_mod_idemp_l. done. }
    unfold _detect.
    destruct (Z.ltb_spec 0 (skip_frames cam)); [|lia].
    pose proof (Z.mod_pos_bound (frame_counter cam) (skip_frames cam + 1)).
    destruct (Z.eqb_spec ((frame_counter cam + 1) `mod` (skip_frames cam + 1)) 0);
      [lia|].
    simpl. rewrite IH; simpl; [|done|rewrite Hmod; lia].
    do 3 f_equal. lia.
Qed.

Lemma label_round_trip_instance :
  isascii "mISO" = true ∧
  subject_of (mkDetection (capitalize "mISO") (Float 3 (-2)) None None "pet")
    = "miso".
Proof.
  split; [reflexivity|].
  exact (proj1 (label_round_trip "mISO" (Float 3 (-2)) None None eq_refl)).
Defined.

Lemma color_is_stable_witness :
  let r1 := _get_color_for_label "Miso" (new_camera 0) in
  let cam2 := (colors_for ["Ozzy"; "Person"] r1.2).2 in
  _get_color_for_label "MISO" cam2 = (r1.1, cam2).
Proof.
  apply (color_is_stable "Miso" "MISO" ["Ozzy"; "Person"] (new_camera 0)).
  reflexivity.
Defined.

Lemma palette_cycles_witness :
  (colors_for ["a"; "b"; "c"; "d"; "e"; "f"; "g"] (new_camera 0)).1 !! 6%nat
    = Some (nth ((pet_color_index (new_camera 0) + 6) `mod` 6)
              default_pet_colors (0, 0, 0)).
Proof.
  apply (palette_cycles ["a"; "b"; "c"; "d"; "e"; "f"; "g"] (new_camera 0)
           6 "g").
  - apply (bool_decide_unpack _). vm_compute. exact I.
  - intros l' Hl'.
    repeat (apply elem_of_cons in Hl'; destruct Hl' as [->|Hl']);
      [vm_compute; reflexivity..|by apply elem_of_nil in Hl'].
  - reflexivity.
Defined.

Lemma skipped_frames_repeat_witness :
  detect_all (mkDetectors nat (λ _, [("miso", Float 3 (-2), [])]) (λ _, []))
    [0%nat; 1%nat] (new_camera 2)
  = Some (replicate 2 (last_detections (new_camera 2)),
          mkCamera (colors (new_camera 2)) (pet_color_index (new_camera 2))
            (frame_counter (new_camera 2) + Z.of_nat 2)
            (skip_frames (new_camera 2)) (last_detections (new_camera 2))).
Proof.
  apply (skipped_frames_repeat
           (mkDetectors nat (λ _, [("miso", Float 3 (-2), [])]) (λ _, []))
           [0%nat; 1%nat] (new_camera 2)).
  - reflexivity.
  - discriminate.
Defined.
